(** * The Scopes tag editor of the form module (modules/form/src/addons/scopes.tsx)

    A shallow embedding of the [Scopes] React function component: its three
    pieces of state, its two effects, its event handlers and the part of its
    render output that decides which handlers a user can reach. *)

From Stdlib Require Import Bool Arith Lia List.
From Stdlib Require Import Ascii String.
Import ListNotations.
Local Open Scope string_scope.
Local Open Scope list_scope.

(** ** Strings and arrays of the host language

    A string is a sequence of code units; the model keeps the code units
    below 256, so an [ascii] stands for one code unit. *)

Module JS.

(** [WhiteSpace] and [LineTerminator] code units that [String.prototype.trim]
    strips, among the code units below 256: TAB, LF, VT, FF, CR, SP, NBSP. *)
Definition isWhiteSpace (c : ascii) : bool :=
  let n := nat_of_ascii c in
  ((n =? 9) || (n =? 10) || (n =? 11) || (n =? 12) || (n =? 13)
   || (n =? 32) || (n =? 160))%nat.

Fixpoint trimStart (s : string) : string :=
  match s with
  | EmptyString => EmptyString
  | String c r => if isWhiteSpace c then trimStart r else s
  end.

Fixpoint trimEnd (s : string) : string :=
  match s with
  | EmptyString => EmptyString
  | String c r =>
      match trimEnd r with
      | EmptyString => if isWhiteSpace c then EmptyString else String c EmptyString
      | r' => String c r'
      end
  end.

(** [s.trim()] *)
Definition trim (s : string) : string := trimEnd (trimStart s).

(** The scan behind [s.split(sep)] for a non-empty separator: [skip] counts
    the code units of a matched separator that are still to be passed. *)
Fixpoint split_go (sep : string) (skip : nat) (s : string) : list string :=
  match s with
  | EmptyString => [EmptyString]
  | String c r =>
      match skip with
      | S k => split_go sep k r
      | O =>
          if prefix sep s
          then EmptyString :: split_go sep (String.length sep - 1) r
          else match split_go sep 0 r with
               | h :: t => String c h :: t
               | [] => [String c EmptyString]
               end
      end
  end.

(** [s.split(sep)]: with the empty separator the string falls apart into
    its code units. *)
Definition split (sep s : string) : list string :=
  match sep with
  | EmptyString => map (fun c => String c EmptyString) (list_ascii_of_string s)
  | _ => split_go sep 0 s
  end.

(** [arr.join(sep)] on an array of strings. *)
Fixpoint join (sep : string) (arr : list string) : string :=
  match arr with
  | [] => EmptyString
  | [x] => x
  | x :: r => (x ++ sep ++ join sep r)%string
  end.

End JS.

(** ** lodash helpers as the component uses them *)

(** [isEmpty] on a value that is a string or [undefined] ([None]). *)
Definition isEmpty (v : option string) : bool :=
  match v with
  | None => true
  | Some s => (String.length s =? 0)%nat
  end.

(** ** Data model *)

(** [ScopeInterface]: an object with the single field [value]. *)
Record ScopeInterface : Set := { value : string }.

(** [ScopesPropsInterface].  The prop [value] is named [prop_value] here, as
    [value] is the field of [ScopeInterface]; it may be [undefined].  The
    callbacks [onChange] and [onBlur] are modelled by the calls the component
    makes to them (see [Callback]). *)
Record ScopesPropsInterface : Set := {
  defaultValue : string;
  label : option string;
  prop_value : option string;
  required : bool;
  placeholder : string
}.

(** The three [useState] cells. *)
Record State : Set := {
  scopeValue : string;
  scopes : list ScopeInterface;
  errorMessage : string
}.

Definition initialState : State :=
  {| scopeValue := ""; scopes := []; errorMessage := "" |}.

Definition SCOPE_SEPARATOR : string := " ".

(** lodash [isEqual] on two [ScopeInterface] objects: deep equality, that is
    equality of the [value] fields. *)
Definition isEqual (a b : ScopeInterface) : bool :=
  String.eqb (value a) (value b).

Definition buildScope (scope : string) : ScopeInterface := {| value := scope |}.

Definition buildScopeString (scope : ScopeInterface) : string := value scope.

Definition buildScopesString (scopes : list ScopeInterface) : string :=
  JS.join SCOPE_SEPARATOR (map buildScopeString scopes).

(** ** State updates

    A handler or an effect runs against the state of the render it closes
    over and calls setters; the calls of one batch are applied in order when
    the component re-renders. *)

Inductive SetState : Set :=
| setScopeValue (s : string)
| setScopes (l : list ScopeInterface)
| setErrorMessage (s : string).

Definition applySet (st : State) (u : SetState) : State :=
  match u with
  | setScopeValue s =>
      {| scopeValue := s; scopes := scopes st; errorMessage := errorMessage st |}
  | setScopes l =>
      {| scopeValue := scopeValue st; scopes := l; errorMessage := errorMessage st |}
  | setErrorMessage s =>
      {| scopeValue := scopeValue st; scopes := scopes st; errorMessage := s |}
  end.

Definition commit (st : State) (us : list SetState) : State :=
  fold_left applySet us st.

(** Every array handed to [setScopes] is freshly built ([split]/[map], an array
    literal, [filter]), so the dependency [[ scopes ]] of the second effect
    differs from the previous render exactly when a batch calls [setScopes]. *)
Definition isSetScopes (u : SetState) : bool :=
  match u with setScopes _ => true | _ => false end.

Definition scopesChanged (us : list SetState) : bool := existsb isSetScopes us.

(** ** Effects and handlers *)

(** First effect, dependency [[ value ]]. *)
Definition valueEffect (v : option string) : list SetState :=
  if isEmpty v then []
  else match v with
       | Some s => [setScopes (map buildScope (JS.split SCOPE_SEPARATOR s))]
       | None => []
       end.

(** Calls made to the callbacks of the props. *)
Inductive Callback : Set :=
| onChange (target_value : string)
| onBlur.

Definition fireOnChangeEvent (scopes : list ScopeInterface) : list Callback :=
  [onChange (buildScopesString scopes)].

(** Second effect, dependency [[ scopes ]]. *)
Definition scopesEffect (st : State) : list Callback :=
  fireOnChangeEvent (scopes st).

Definition updateScopeInputFields (scope : ScopeInterface) : list SetState :=
  [setScopeValue (value scope)].

(** Body of the [forEach] callback in [handleScopeAdd]: [output] is the
    array being built, [scope] the element visited. *)
Definition pushUnlessExisting (output : list ScopeInterface) (scope : ScopeInterface)
  : list ScopeInterface :=
  let existing := filter (fun item => String.eqb (value item) (value scope)) output in
  if (0 <? List.length existing)%nat then output else output ++ [scope].

Definition handleScopeAdd (st : State) : list SetState :=
  if isEmpty (Some (scopeValue st)) then []
  else
    let output := [ {| value := scopeValue st |} ] in
    let output := fold_left pushUnlessExisting (scopes st) output in
    setErrorMessage "" :: setScopes output :: updateScopeInputFields {| value := "" |}.

Definition keyPressed (key : string) (st : State) : list SetState :=
  if String.eqb key "Enter" then handleScopeAdd st else [].

Definition handleLabelRemove (scopeParam : string) (st : State) : list SetState :=
  if isEmpty (Some scopeParam) then []
  else [setScopes (filter (fun scope => negb (isEqual scope (buildScope scopeParam)))
                          (scopes st))].

(** [onChange] of the text input. *)
Definition inputChanged (data_value : string) : list SetState :=
  [setScopeValue (JS.trim data_value)].

(** ** Render output *)

(** A rendered [Label]: its React key, its text, and, when it carries the
    delete [Icon], the argument its [onClick] passes to [handleLabelRemove]. *)
Record LabelView : Set := {
  label_key : nat;
  label_text : string;
  label_delete : option string
}.

Record View : Set := {
  view_heading : option (string * bool);   (* the label and [required] *)
  view_input : string;                     (* [value] of the text input *)
  view_placeholder : string;
  view_message_visible : bool;
  view_message_content : string;
  view_labels : list LabelView
}.

Fixpoint mapIndexed {A B : Type} (f : A -> nat -> B) (index : nat) (l : list A) : list B :=
  match l with
  | [] => []
  | a :: r => f a index :: mapIndexed f (S index) r
  end.

Definition renderLabel (defaultValue : string) (eachScope : ScopeInterface) (index : nat)
  : LabelView :=
  let scope := value eachScope in
  if String.eqb scope defaultValue
  then {| label_key := index; label_text := scope; label_delete := None |}
  else {| label_key := index; label_text := scope; label_delete := Some scope |}.

Definition render (p : ScopesPropsInterface) (st : State) : View :=
  {| view_heading :=
       match label p with
       | Some l => if isEmpty (Some l) then None else Some (l, required p)
       | None => None
       end;
     view_input := scopeValue st;
     view_placeholder := placeholder p;
     view_message_visible := negb (String.eqb (errorMessage st) "");
     view_message_content := errorMessage st;
     view_labels := mapIndexed (renderLabel (defaultValue p)) 0 (scopes st) |}.

(** ** The component as a transition system *)

Record Component : Set := {
  props : ScopesPropsInterface;
  state : State
}.

(** What can happen to a mounted component: the events its render output
    wires to handlers, and a re-render by the parent with new props. *)
Inductive Action : Set :=
| InputChange (data_value : string)
| InputKeyDown (key : string)
| InputBlur
| AddClick
| DeleteClick (scope : string)
| Rerender (p : ScopesPropsInterface).

(** Re-render after a batch of setter calls: the state is committed and the
    second effect runs when its dependency changed. *)
Definition flush (p : ScopesPropsInterface) (st : State) (us : list SetState)
  : Component * list Callback :=
  let st' := commit st us in
  ({| props := p; state := st' |},
   if scopesChanged us then scopesEffect st' else []).

Definition option_string_eqb (a b : option string) : bool :=
  match a, b with
  | Some x, Some y => String.eqb x y
  | None, None => true
  | _, _ => false
  end.

(** The setter calls an action leads to: those of the handler it is wired to
    or, for a re-render, those of the first effect, which runs when its
    dependency [[ value ]] changed. *)
Definition setterCalls (c : Component) (a : Action) : list SetState :=
  let st := state c in
  match a with
  | InputChange data_value => inputChanged data_value
  | InputKeyDown key => keyPressed key st
  | InputBlur => []
  | AddClick => handleScopeAdd st
  | DeleteClick scope => handleLabelRemove scope st
  | Rerender p' =>
      if option_string_eqb (prop_value (props c)) (prop_value p') then []
      else valueEffect (prop_value p')
  end.

Definition step (c : Component) (a : Action) : Component * list Callback :=
  match a with
  | InputBlur => (c, [onBlur])
  | Rerender p' => flush p' (state c) (setterCalls c a)
  | _ => flush (props c) (state c) (setterCalls c a)
  end.

(** First render: both effects run, in the order they are declared, against
    the initial state; the setter calls of the first one are then flushed. *)
Definition mount (p : ScopesPropsInterface) : Component * list Callback :=
  let us := valueEffect (prop_value p) in
  let calls := scopesEffect initialState in
  let (c, calls') := flush p initialState us in
  (c, calls ++ calls').

Fixpoint run (c : Component) (actions : list Action) : Component * list Callback :=
  match actions with
  | [] => (c, [])
  | a :: rest =>
      let (c1, calls1) := step c a in
      let (c2, calls2) := run c1 rest in
      (c2, calls1 ++ calls2)
  end.

(** The delete icon of a label is the only way the render output reaches
    [handleLabelRemove]. *)
Definition offersDelete (v : View) (scope : string) : Prop :=
  exists l, In l (view_labels v) /\ label_delete l = Some scope.

Inductive reachable : Component -> Prop :=
| reachable_mount (p : ScopesPropsInterface) : reachable (fst (mount p))
| reachable_step (c : Component) (a : Action) :
    reachable c -> reachable (fst (step c a)).

(** ** Vocabulary of the properties *)

Fixpoint allChars (P : ascii -> bool) (s : string) : bool :=
  match s with
  | EmptyString => true
  | String c r => P c && allChars P r
  end.

(** No code unit of [s] is the separator. *)
Definition spaceFree (s : string) : Prop :=
  allChars (fun c => negb (Ascii.eqb c " ")) s = true.

Definition whitespaceFree (s : string) : Prop :=
  allChars (fun c => negb (JS.isWhiteSpace c)) s = true.

Definition whitespaceOnly (s : string) : Prop :=
  allChars JS.isWhiteSpace s = true.

Fixpoint countSpaces (s : string) : nat :=
  match s with
  | EmptyString => 0
  | String c r => (if Ascii.eqb c " " then 1 else 0) + countSpaces r
  end.

(** A token as the data model of the editor describes it. *)
Definition wellFormedToken (t : ScopeInterface) : Prop :=
  value t <> "" /\ whitespaceFree (value t).

Definition uniqueTokens (l : list ScopeInterface) : Prop := NoDup (map value l).

(** ** The list an add builds *)

(** The existing tokens that an add appends, read off the loop: a token is
    appended unless [seen], the values already in the output, holds its
    value. *)
Fixpoint appendFresh (seen : list string) (l : list ScopeInterface) : list ScopeInterface :=
  match l with
  | [] => []
  | t :: r =>
      if existsb (fun s => String.eqb s (value t)) seen
      then appendFresh seen r
      else t :: appendFresh (seen ++ [value t]) r
  end.

(** The list an add would build if only the tokens equal to the new one were
    dropped and every other existing token kept. *)
Definition addKeepingOthers (x : string) (l : list ScopeInterface) : list ScopeInterface :=
  {| value := x |} :: filter (fun t => negb (String.eqb (value t) x)) l.

(** The list [handleScopeAdd] hands to [setScopes]. *)
Definition addOutput (x : string) (l : list ScopeInterface) : list ScopeInterface :=
  fold_left pushUnlessExisting l [ {| value := x |} ].

(** The list a removal leaves, in the words of the editor's description:
    every token whose value is [s] goes, the others stay in their order. *)
Fixpoint withoutValue (s : string) (l : list ScopeInterface) : list ScopeInterface :=
  match l with
  | [] => []
  | t :: r =>
      if string_dec (value t) s then withoutValue s r else t :: withoutValue s r
  end.

(** Only [setErrorMessage ""] occurs among the setter calls [us]. *)
Definition clearsErrorOnly (us : list SetState) : Prop :=
  Forall (fun u => match u with setErrorMessage s => s = "" | _ => True end) us.

(** Props of an editor whose default scope is [openid]. *)
Definition openidProps (v : option string) : ScopesPropsInterface :=
  {| defaultValue := "openid"; label := Some "Scopes"; prop_value := v;
     required := true; placeholder := "Enter a scope" |}.

Definition withState (p : ScopesPropsInterface) (pending : string) (tokens : list string)
  : Component :=
  {| props := p;
     state := {| scopeValue := pending; scopes := map buildScope tokens;
                 errorMessage := "" |} |}.

(** ** Vocabulary of the properties of the whole component *)

Definition startsWithWhiteSpace (s : string) : bool :=
  match s with
  | EmptyString => false
  | String c _ => JS.isWhiteSpace c
  end.

Fixpoint endsWithWhiteSpace (s : string) : bool :=
  match s with
  | EmptyString => false
  | String c EmptyString => JS.isWhiteSpace c
  | String _ r => endsWithWhiteSpace r
  end.

(** Every [setScopeValue] among the setter calls [us] writes a string that
    satisfies [P]. *)
Definition writesPending (P : string -> Prop) (us : list SetState) : Prop :=
  Forall (fun u => match u with setScopeValue s => P s | _ => True end) us.

(** The payload of the last [onChange] call in a trace, if there is one. *)
Definition lastOnChange (calls : list Callback) : option string :=
  fold_left (fun acc call => match call with
                             | onChange v => Some v
                             | onBlur => acc
                             end) calls None.

Definition isRerender (a : Action) : bool :=
  match a with Rerender _ => true | _ => false end.

(** Actions of the user alone: the parent does not re-render in between. *)
Definition userActions (actions : list Action) : Prop :=
  Forall (fun a => isRerender a = false) actions.

(** ** Facts about [split], [join] and [trim] *)

Section StringFacts.

Lemma split_space_cons (c : ascii) (r : string) :
  JS.split " " (String c r) =
  if Ascii.eqb c " " then "" :: JS.split " " r
  else match JS.split " " r with
       | h :: t => String c h :: t
       | [] => [String c ""]
       end.
Proof.
  unfold JS.split. cbn [JS.split_go prefix String.length Nat.sub].
  destruct (ascii_dec " " c) as [E | E].
  - subst c. destruct r; reflexivity.
  - destruct (Ascii.eqb_spec c " ") as [E' | _]; [congruence | reflexivity].
Qed.

Lemma split_space_nil : JS.split " " "" = [""].
Proof. reflexivity. Qed.

Lemma split_space_not_nil (s : string) : JS.split " " s <> [].
Proof.
  destruct s as [| c r]; [discriminate |].
  rewrite split_space_cons.
  destruct (Ascii.eqb c " "); [discriminate |].
  destruct (JS.split " " r); discriminate.
Qed.

Lemma join_cons_char (sep : string) (c : ascii) (h : string) (t : list string) :
  JS.join sep (String c h :: t) = String c (JS.join sep (h :: t)).
Proof. destruct t; reflexivity. Qed.

Lemma join_cons_cons (sep x y : string) (r : list string) :
  JS.join sep (x :: y :: r) = (x ++ sep ++ JS.join sep (y :: r))%string.
Proof. reflexivity. Qed.

(** [join] undoes [split]: nothing of the string is lost or reordered. *)
Lemma join_split_space (s : string) : JS.join " " (JS.split " " s) = s.
Proof.
  induction s as [| c r IH]; [reflexivity |].
  rewrite split_space_cons.
  destruct (Ascii.eqb_spec c " ") as [-> | _].
  - destruct (JS.split " " r) as [| h t] eqn:E.
    + now apply split_space_not_nil in E.
    + rewrite join_cons_cons, IH. reflexivity.
  - destruct (JS.split " " r) as [| h t] eqn:E.
    + now apply split_space_not_nil in E.
    + rewrite join_cons_char, IH. reflexivity.
Qed.

Lemma split_space_length (s : string) :
  List.length (JS.split " " s) = S (countSpaces s).
Proof.
  induction s as [| c r IH]; [reflexivity |].
  rewrite split_space_cons. cbn [countSpaces].
  destruct (Ascii.eqb c " ").
  - cbn [List.length]. rewrite IH. reflexivity.
  - destruct (JS.split " " r); cbn [List.length] in *; lia.
Qed.

Lemma split_space_pieces (s : string) : Forall spaceFree (JS.split " " s).
Proof.
  induction s as [| c r IH].
  - repeat constructor.
  - rewrite split_space_cons.
    destruct (Ascii.eqb c " ") eqn:E.
    + constructor; [reflexivity | exact IH].
    + destruct (JS.split " " r) as [| h t].
      * constructor; [| constructor]. unfold spaceFree. cbn. now rewrite E.
      * inversion IH as [| ? ? Hh Ht]; subst.
        constructor; [| exact Ht].
        unfold spaceFree in *. cbn. now rewrite E.
Qed.

Lemma split_space_free (x : string) : spaceFree x -> JS.split " " x = [x].
Proof.
  unfold spaceFree.
  induction x as [| c r IH]; intros H; [reflexivity |].
  cbn in H. apply andb_true_iff in H as [Hc Hr].
  rewrite split_space_cons.
  apply negb_true_iff in Hc. rewrite Hc, (IH Hr). reflexivity.
Qed.

Lemma split_space_app (x r : string) :
  spaceFree x ->
  JS.split " " (x ++ String " " r) = x :: JS.split " " r.
Proof.
  unfold spaceFree.
  induction x as [| c x' IH]; intros H.
  - cbn [String.append]. rewrite split_space_cons. reflexivity.
  - cbn in H. apply andb_true_iff in H as [Hc Hr].
    cbn [String.append]. rewrite split_space_cons.
    apply negb_true_iff in Hc. rewrite Hc, (IH Hr). reflexivity.
Qed.

(** [split] undoes [join] on a non-empty array of separator-free strings. *)
Lemma split_join_space (l : list string) :
  l <> [] -> Forall spaceFree l -> JS.split " " (JS.join " " l) = l.
Proof.
  induction l as [| x r IH]; intros Hne Hall; [congruence |].
  inversion Hall as [| ? ? Hx Hr]; subst.
  destruct r as [| y r'].
  - cbn [JS.join]. now apply split_space_free.
  - rewrite join_cons_cons. cbn [String.append].
    rewrite split_space_app by exact Hx.
    rewrite IH; [reflexivity | discriminate | exact Hr].
Qed.

Lemma whitespaceFree_spaceFree (s : string) : whitespaceFree s -> spaceFree s.
Proof.
  unfold whitespaceFree, spaceFree.
  induction s as [| c r IH]; intros H; [reflexivity |].
  cbn in *. apply andb_true_iff in H as [Hc Hr].
  rewrite (IH Hr), andb_true_r.
  destruct (Ascii.eqb_spec c " ") as [-> | _]; [discriminate Hc | reflexivity].
Qed.

Lemma trimStart_whitespaceOnly (s : string) :
  whitespaceOnly s -> JS.trimStart s = "".
Proof.
  unfold whitespaceOnly.
  induction s as [| c r IH]; intros H; [reflexivity |].
  cbn in *. apply andb_true_iff in H as [Hc Hr].
  rewrite Hc. exact (IH Hr).
Qed.

Lemma trim_whitespaceOnly (s : string) : whitespaceOnly s -> JS.trim s = "".
Proof.
  intros H. unfold JS.trim. now rewrite trimStart_whitespaceOnly.
Qed.

Lemma isEmpty_Some (s : string) : isEmpty (Some s) = true <-> s = "".
Proof.
  destruct s; cbn; split; intros H; congruence.
Qed.

Lemma isEmpty_Some_false (s : string) : s <> "" -> isEmpty (Some s) = false.
Proof.
  intros H. destruct (isEmpty (Some s)) eqn:E; [| reflexivity].
  now apply isEmpty_Some in E.
Qed.

End StringFacts.

(** ** Facts about the loop of [handleScopeAdd] *)

Section AddFacts.

Lemma token_eta (t : ScopeInterface) : t = {| value := value t |}.
Proof. destruct t; reflexivity. Qed.

Lemma token_eq (t u : ScopeInterface) : value t = value u -> t = u.
Proof. destruct t, u; cbn; congruence. Qed.

Lemma existing_length (v : string) (output : list ScopeInterface) :
  (0 <? List.length (filter (fun item => String.eqb (value item) v) output))%nat =
  existsb (fun s => String.eqb s v) (map value output).
Proof.
  induction output as [| t r IH]; [reflexivity |].
  cbn [filter map existsb].
  destruct (String.eqb (value t) v); [reflexivity | exact IH].
Qed.

Lemma fold_pushUnlessExisting (l output : list ScopeInterface) :
  fold_left pushUnlessExisting l output =
  output ++ appendFresh (map value output) l.
Proof.
  revert output.
  induction l as [| t r IH]; intros output; cbn [fold_left appendFresh].
  - now rewrite app_nil_r.
  - rewrite IH. unfold pushUnlessExisting. rewrite existing_length.
    destruct (existsb _ (map value output)); [reflexivity |].
    rewrite map_app, <- app_assoc. reflexivity.
Qed.

Lemma addOutput_eq (x : string) (l : list ScopeInterface) :
  addOutput x l = {| value := x |} :: appendFresh [x] l.
Proof. unfold addOutput. now rewrite fold_pushUnlessExisting. Qed.

Lemma seen_spec (seen : list string) (v : string) :
  existsb (fun s => String.eqb s v) seen = true <-> In v seen.
Proof.
  rewrite existsb_exists. split.
  - intros (s & Hs & E). apply String.eqb_eq in E. now subst.
  - intros H. exists v. split; [exact H | apply String.eqb_refl].
Qed.

Lemma seen_spec_false (seen : list string) (v : string) :
  existsb (fun s => String.eqb s v) seen = false <-> ~ In v seen.
Proof.
  rewrite <- seen_spec. now destruct (existsb _ seen).
Qed.

Lemma appendFresh_In (seen : list string) (l : list ScopeInterface) (t : ScopeInterface) :
  In t (appendFresh seen l) <-> In t l /\ ~ In (value t) seen.
Proof.
  revert seen.
  induction l as [| u r IH]; intros seen; cbn [appendFresh In]; [tauto |].
  destruct (existsb _ seen) eqn:E.
  - apply seen_spec in E. rewrite IH. split.
    + tauto.
    + intros [[-> | H] Hn]; tauto.
  - apply seen_spec_false in E. cbn [In]. rewrite IH, in_app_iff. cbn [In]. split.
    + intros [-> | (H & Hn)]; tauto.
    + intros [[-> | H] Hn]; [tauto |].
      destruct (string_dec (value u) (value t)) as [Ev | Nv].
      * left. now apply token_eq.
      * right. tauto.
Qed.

Lemma appendFresh_NoDup (seen : list string) (l : list ScopeInterface) :
  NoDup seen -> NoDup (seen ++ map value (appendFresh seen l)).
Proof.
  revert seen.
  induction l as [| u r IH]; intros seen Hs; cbn [appendFresh map].
  - now rewrite app_nil_r.
  - destruct (existsb _ seen) eqn:E; [now apply IH |].
    apply seen_spec_false in E. cbn [map].
    replace (seen ++ value u :: map value (appendFresh (seen ++ [value u]) r))
      with ((seen ++ [value u]) ++ map value (appendFresh (seen ++ [value u]) r))
      by now rewrite <- app_assoc.
    apply IH. apply NoDup_app; [exact Hs | repeat constructor; intros [] |].
    intros a Ha [<- | []]. contradiction.
Qed.

(** On a list without duplicates the loop only drops what [seen] holds. *)
Lemma appendFresh_unique (seen : list string) (l : list ScopeInterface) :
  uniqueTokens l ->
  appendFresh seen l =
  filter (fun t => negb (existsb (fun s => String.eqb s (value t)) seen)) l.
Proof.
  unfold uniqueTokens. revert seen.
  induction l as [| u r IH]; intros seen Hu; cbn [appendFresh filter map] in *;
    [reflexivity |].
  inversion Hu as [| ? ? Hnot Hr]; subst.
  destruct (existsb _ seen) eqn:E; cbn [negb]; [now apply IH |].
  f_equal. rewrite (IH _ Hr). apply filter_ext_in. intros t Ht.
  rewrite existsb_app. cbn [existsb]. rewrite orb_false_r.
  destruct (String.eqb_spec (value u) (value t)) as [Ev | _]; [| now rewrite orb_false_r].
  exfalso. apply Hnot. rewrite Ev. now apply in_map.
Qed.

Lemma addOutput_unique (x : string) (l : list ScopeInterface) :
  uniqueTokens l -> addOutput x l = addKeepingOthers x l.
Proof.
  intros Hu. rewrite addOutput_eq. unfold addKeepingOthers. f_equal.
  rewrite (appendFresh_unique _ _ Hu). apply filter_ext_in. intros t _.
  cbn [existsb]. rewrite orb_false_r, String.eqb_sym. reflexivity.
Qed.

Lemma filter_absent (x : string) (l : list ScopeInterface) :
  ~ In x (map value l) ->
  filter (fun t => negb (String.eqb (value t) x)) l = l.
Proof.
  induction l as [| u r IH]; intros H; cbn [filter map In] in *; [reflexivity |].
  destruct (String.eqb_spec (value u) x) as [E | _]; [tauto |].
  cbn [negb]. f_equal. apply IH. tauto.
Qed.

End AddFacts.

(** ** Facts about the transition system *)

Section StepFacts.

Lemma component_eta (c : Component) : {| props := props c; state := state c |} = c.
Proof. destruct c; reflexivity. Qed.

Lemma flush_nil (c : Component) : flush (props c) (state c) [] = (c, []).
Proof. unfold flush. cbn. now rewrite component_eta. Qed.

Lemma handleScopeAdd_empty (st : State) :
  scopeValue st = "" -> handleScopeAdd st = [].
Proof. intros E. unfold handleScopeAdd. now rewrite E. Qed.

Lemma handleScopeAdd_nonempty (st : State) :
  scopeValue st <> "" ->
  handleScopeAdd st =
  [setErrorMessage ""; setScopes (addOutput (scopeValue st) (scopes st)); setScopeValue ""].
Proof.
  intros N. unfold handleScopeAdd. now rewrite (isEmpty_Some_false _ N).
Qed.

Lemma step_AddClick_empty (c : Component) :
  scopeValue (state c) = "" -> step c AddClick = (c, []).
Proof.
  intros E. cbn [step setterCalls]. rewrite (handleScopeAdd_empty _ E). apply flush_nil.
Qed.

Lemma step_AddClick_nonempty (c : Component) :
  scopeValue (state c) <> "" ->
  let out := addOutput (scopeValue (state c)) (scopes (state c)) in
  step c AddClick =
  ({| props := props c;
      state := {| scopeValue := ""; scopes := out; errorMessage := "" |} |},
   [onChange (buildScopesString out)]).
Proof.
  intros N out. cbn [step setterCalls]. rewrite (handleScopeAdd_nonempty _ N). reflexivity.
Qed.

Lemma step_Enter (c : Component) : step c (InputKeyDown "Enter") = step c AddClick.
Proof. reflexivity. Qed.

End StepFacts.

(** ** Adding a token *)

(** C1, as the loop is written: an add committed with a non-empty pending
    token [x] builds its list from [[x]] by visiting the existing tokens in
    order and appending each one unless a token with the same value as the
    visited one is already in the output.  So [x] takes the front, the
    existing tokens equal to [x] are dropped, and of the other existing tokens
    the first of each value is kept, in order: the committed list has no two
    tokens of one value and holds exactly [x] and the values of the old list.
    The add also resets the pending input, leaves the error message empty and
    notifies [onChange] once with the new list, from the button and from the
    Enter key alike. *)
Theorem add_keeps_first_of_each_value (c : Component) :
  scopeValue (state c) <> "" ->
  let x := scopeValue (state c) in
  let l := scopes (state c) in
  let out := {| value := x |} :: appendFresh [x] l in
  step c AddClick =
    ({| props := props c;
        state := {| scopeValue := ""; scopes := out; errorMessage := "" |} |},
     [onChange (buildScopesString out)])
  /\ step c (InputKeyDown "Enter") = step c AddClick
  /\ uniqueTokens out
  /\ (forall t, In t out <-> t = {| value := x |} \/ In t l)
  /\ (uniqueTokens l -> out = addKeepingOthers x l).
Proof.
  intros N x l out.
  assert (E : addOutput x l = out) by apply addOutput_eq.
  split; [| split; [| split; [| split]]].
  - rewrite (step_AddClick_nonempty c N). fold x l. now rewrite E.
  - apply step_Enter.
  - unfold uniqueTokens, out. cbn [map value].
    apply (appendFresh_NoDup [x] l). repeat constructor. intros [].
  - intros t. unfold out. cbn [In]. split.
    + intros [<- | H]; [now left |].
      apply appendFresh_In in H. tauto.
    + intros [-> | H]; [now left |].
      destruct (string_dec x (value t)) as [Ev | Nv].
      * left. now apply token_eq.
      * right. apply appendFresh_In. split; [exact H |].
        intros [Hx | []]. contradiction.
  - intros Hu. rewrite <- E. now apply addOutput_unique.
Qed.

Lemma add_keeps_first_of_each_value_witness :
  scopeValue (state (withState (openidProps (Some "openid openid")) "email"
                               ["openid"; "profile"; "openid"; "email"])) <> ""
  /\ step (withState (openidProps (Some "openid openid")) "email"
                     ["openid"; "profile"; "openid"; "email"]) AddClick =
     (withState (openidProps (Some "openid openid")) ""
                ["email"; "openid"; "profile"],
      [onChange "email openid profile"]).
Proof.
  assert (N : scopeValue (state (withState (openidProps (Some "openid openid")) "email"
                ["openid"; "profile"; "openid"; "email"])) <> "") by discriminate.
  split; [exact N |].
  exact (proj1 (add_keeps_first_of_each_value _ N)).
Defined.

(** C1 as worded fails: after mounting with the value [openid openid] the
    list holds the token [openid] twice; adding [email] then commits
    [email; openid], while keeping every existing token other than the new one
    would give [email; openid; openid]. *)
Lemma add_drops_repeated_existing_token :
  fst (run (fst (mount (openidProps (Some "openid openid")))) [InputChange "email"]) =
    withState (openidProps (Some "openid openid")) "email" ["openid"; "openid"]
  /\ scopes (state (fst (step (withState (openidProps (Some "openid openid")) "email"
                                         ["openid"; "openid"]) AddClick))) =
     map buildScope ["email"; "openid"]
  /\ addKeepingOthers "email" (map buildScope ["openid"; "openid"]) =
     map buildScope ["email"; "openid"; "openid"]
  /\ scopes (state (fst (step (withState (openidProps (Some "openid openid")) "email"
                                         ["openid"; "openid"]) AddClick))) <>
     addKeepingOthers "email" (map buildScope ["openid"; "openid"]).
Proof.
  split; [reflexivity | split; [reflexivity | split; [reflexivity | discriminate]]].
Qed.

(** C2: with a non-empty pending token [x], adding to the duplicate-free list
    [a; b; c] that does not hold [x] commits [x; a; b; c], and adding to
    [a; x; c] commits [x; a; c]: [x] moves to the front and occurs once. *)
Theorem add_front_and_add_replace
  (p : ScopesPropsInterface) (x a b c : string) :
  x <> "" -> NoDup [a; b; c] -> ~ In x [a; b; c] ->
  scopes (state (fst (step (withState p x [a; b; c]) AddClick))) =
    map buildScope [x; a; b; c]
  /\ scopes (state (fst (step (withState p x [a; x; c]) AddClick))) =
    map buildScope [x; a; c]
  /\ uniqueTokens (map buildScope [x; a; c]).
Proof.
  intros Nx Hu Hx.
  assert (Hac : a <> c).
  { inversion Hu as [| ? ? Ha _]; subst. cbn in Ha. intros ->. tauto. }
  assert (Hxa : x <> a) by (cbn in Hx; intros ->; tauto).
  assert (Hxc : x <> c) by (cbn in Hx; intros ->; tauto).
  split; [| split].
  - rewrite (step_AddClick_nonempty (withState p x [a; b; c]) Nx). cbn [fst state scopes withState scopeValue].
    rewrite addOutput_unique.
    + unfold addKeepingOthers. rewrite filter_absent; [reflexivity |].
      now rewrite map_map, map_id.
    + unfold uniqueTokens. now rewrite map_map, map_id.
  - rewrite (step_AddClick_nonempty (withState p x [a; x; c]) Nx). cbn [fst state scopes withState scopeValue].
    rewrite addOutput_unique.
    + unfold addKeepingOthers. cbn [map filter buildScope value].
      rewrite String.eqb_refl.
      destruct (String.eqb_spec a x) as [E | _]; [congruence |].
      destruct (String.eqb_spec c x) as [E | _]; [congruence |].
      reflexivity.
    + unfold uniqueTokens. rewrite map_map, map_id.
      repeat constructor; cbn; intuition congruence.
  - unfold uniqueTokens. rewrite map_map, map_id.
    repeat constructor; cbn; intuition congruence.
Qed.

Lemma add_front_and_add_replace_witness :
  ("email" <> "" /\ NoDup ["openid"; "profile"; "address"]
   /\ ~ In "email" ["openid"; "profile"; "address"])
  /\ scopes (state (fst (step (withState (openidProps None) "email"
                                         ["openid"; "profile"; "address"]) AddClick))) =
     map buildScope ["email"; "openid"; "profile"; "address"]
  /\ scopes (state (fst (step (withState (openidProps None) "email"
                                         ["openid"; "email"; "address"]) AddClick))) =
     map buildScope ["email"; "openid"; "address"].
Proof.
  assert (Nx : "email" <> "") by discriminate.
  assert (Hu : NoDup ["openid"; "profile"; "address"]).
  { repeat constructor; cbn; intuition discriminate. }
  assert (Hx : ~ In "email" ["openid"; "profile"; "address"]).
  { cbn; intuition discriminate. }
  split; [repeat split; assumption |].
  split.
  - exact (proj1 (add_front_and_add_replace (openidProps None) _ _ _ _ Nx Hu Hx)).
  - exact (proj1 (proj2 (add_front_and_add_replace (openidProps None) _ _ _ _ Nx Hu Hx))).
Defined.

(** ** Parsing the external value and serializing the list *)

Section ParseFacts.

Lemma valueEffect_empty (v : option string) :
  isEmpty v = true -> valueEffect v = [].
Proof. intros E. unfold valueEffect. now rewrite E. Qed.

Lemma valueEffect_nonempty (v : string) :
  v <> "" ->
  valueEffect (Some v) = [setScopes (map buildScope (JS.split SCOPE_SEPARATOR v))].
Proof.
  intros N. unfold valueEffect. now rewrite (isEmpty_Some_false _ N).
Qed.

Lemma buildScope_values (ts : list ScopeInterface) :
  map buildScope (map buildScopeString ts) = ts.
Proof.
  induction ts as [| t r IH]; [reflexivity |].
  cbn [map]. rewrite IH. unfold buildScope, buildScopeString.
  now rewrite <- token_eta.
Qed.

Lemma buildScopesString_parsed (v : string) :
  buildScopesString (map buildScope (JS.split SCOPE_SEPARATOR v)) = v.
Proof.
  unfold buildScopesString. rewrite map_map. cbn [buildScope buildScopeString value].
  rewrite map_id. apply join_split_space.
Qed.

Lemma buildScopesString_not_empty (t : ScopeInterface) (r : list ScopeInterface) :
  value t <> "" -> buildScopesString (t :: r) <> "".
Proof.
  intros N. unfold buildScopesString, buildScopeString. cbn [map].
  destruct (value t) as [| ch rest] eqn:E; [congruence |].
  destruct (map value r); discriminate.
Qed.

(** The bare parse undoes the serialization of a non-empty list of tokens
    that hold no separator. *)
Lemma parse_serialized (ts : list ScopeInterface) :
  ts <> [] -> Forall (fun t => spaceFree (value t)) ts ->
  map buildScope (JS.split SCOPE_SEPARATOR (buildScopesString ts)) = ts.
Proof.
  intros Hne Hall. unfold buildScopesString, SCOPE_SEPARATOR.
  rewrite split_join_space.
  - apply buildScope_values.
  - destruct ts; [congruence | discriminate].
  - apply Forall_map. exact Hall.
Qed.

Lemma valueEffect_serialized (ts : list ScopeInterface) :
  Forall wellFormedToken ts ->
  valueEffect (Some (buildScopesString ts)) =
  match ts with [] => [] | _ :: _ => [setScopes ts] end.
Proof.
  intros Hall. destruct ts as [| t r]; [reflexivity |].
  assert (Ht : value t <> "") by (inversion Hall as [| ? ? [H _] _]; exact H).
  rewrite (valueEffect_nonempty _ (buildScopesString_not_empty t r Ht)).
  rewrite parse_serialized; [reflexivity | discriminate |].
  eapply Forall_impl; [| exact Hall].
  intros u [_ Hu]. now apply whitespaceFree_spaceFree.
Qed.

Lemma option_string_eqb_spec (a b : option string) :
  option_string_eqb a b = true <-> a = b.
Proof.
  destruct a as [x |], b as [y |]; cbn; try (split; congruence).
  rewrite String.eqb_eq. split; congruence.
Qed.

End ParseFacts.

(** C3: for a list [ts] of unique, whitespace-free, non-empty tokens,
    serializing it and parsing the string back yields [ts]: a component
    mounted with the serialized string as its value holds [ts], and so does a
    component that holds [ts] and is handed the string as its new value.  For
    a non-empty [ts] the parse sets the list to [ts] whatever the component
    held. *)
Theorem serialize_then_parse_round_trip
  (p : ScopesPropsInterface) (ts : list ScopeInterface) :
  uniqueTokens ts -> Forall wellFormedToken ts ->
  prop_value p = Some (buildScopesString ts) ->
  scopes (state (fst (mount p))) = ts
  /\ (forall p0 pending err,
        scopes (state (fst (step {| props := p0;
                                    state := {| scopeValue := pending; scopes := ts;
                                                errorMessage := err |} |}
                                 (Rerender p)))) = ts)
  /\ (ts <> [] ->
      valueEffect (prop_value p) = [setScopes ts]
      /\ map buildScope (JS.split SCOPE_SEPARATOR (buildScopesString ts)) = ts).
Proof.
  intros _ Hall Hp.
  pose proof (valueEffect_serialized ts Hall) as Hv.
  split; [| split].
  - unfold mount. rewrite Hp, Hv. destruct ts; reflexivity.
  - intros p0 pending err. cbn [step setterCalls props state].
    destruct (option_string_eqb (prop_value p0) (prop_value p)); [reflexivity |].
    rewrite Hp, Hv. destruct ts; reflexivity.
  - intros Hne. rewrite Hp, Hv. destruct ts as [| t r]; [congruence |].
    split; [reflexivity |].
    apply parse_serialized; [discriminate |].
    eapply Forall_impl; [| exact Hall].
    intros u [_ Hu]. now apply whitespaceFree_spaceFree.
Qed.

Lemma serialize_then_parse_round_trip_witness :
  (uniqueTokens (map buildScope ["openid"; "profile"; "email"])
   /\ Forall wellFormedToken (map buildScope ["openid"; "profile"; "email"]))
  /\ buildScopesString (map buildScope ["openid"; "profile"; "email"]) =
     "openid profile email"
  /\ scopes (state (fst (mount (openidProps (Some "openid profile email"))))) =
     map buildScope ["openid"; "profile"; "email"].
Proof.
  assert (Hu : uniqueTokens (map buildScope ["openid"; "profile"; "email"])).
  { unfold uniqueTokens. repeat constructor; cbn; intuition discriminate. }
  assert (Hw : Forall wellFormedToken (map buildScope ["openid"; "profile"; "email"])).
  { repeat constructor; discriminate. }
  split; [split; assumption |].
  split; [reflexivity |].
  exact (proj1 (serialize_then_parse_round_trip
                  (openidProps (Some "openid profile email")) _ Hu Hw eq_refl)).
Defined.

(** ** Removing a token *)

Section RemoveFacts.

Lemma filter_not_isEqual (s : string) (l : list ScopeInterface) :
  filter (fun scope => negb (isEqual scope (buildScope s))) l = withoutValue s l.
Proof.
  induction l as [| t r IH]; [reflexivity |].
  cbn [filter withoutValue]. unfold isEqual at 1. cbn [buildScope value].
  destruct (string_dec (value t) s) as [E | N].
  - rewrite E, String.eqb_refl. exact IH.
  - apply String.eqb_neq in N. rewrite N. cbn [negb]. now rewrite IH.
Qed.

Lemma withoutValue_In (s : string) (l : list ScopeInterface) (t : ScopeInterface) :
  In t (withoutValue s l) <-> In t l /\ value t <> s.
Proof.
  induction l as [| u r IH]; cbn [withoutValue In]; [tauto |].
  destruct (string_dec (value u) s) as [E | N].
  - rewrite IH. split; [tauto |]. intros [[-> | H] Hn]; tauto.
  - cbn [In]. rewrite IH. split.
    + intros [-> | H]; tauto.
    + tauto.
Qed.

Lemma withoutValue_absent (s : string) (l : list ScopeInterface) :
  ~ In s (map value l) -> withoutValue s l = l.
Proof.
  induction l as [| u r IH]; intros H; cbn [withoutValue map In] in *; [reflexivity |].
  destruct (string_dec (value u) s) as [E | _]; [tauto |].
  f_equal. apply IH. tauto.
Qed.

Lemma withoutValue_app (s : string) (l1 l2 : list ScopeInterface) :
  withoutValue s (l1 ++ l2) = withoutValue s l1 ++ withoutValue s l2.
Proof.
  induction l1 as [| u r IH]; [reflexivity |].
  cbn [withoutValue app]. destruct (string_dec (value u) s); [exact IH |].
  cbn [app]. now rewrite IH.
Qed.

Lemma step_DeleteClick_empty (c : Component) : step c (DeleteClick "") = (c, []).
Proof. cbn [step setterCalls]. apply flush_nil. Qed.

Lemma step_DeleteClick_nonempty (c : Component) (s : string) :
  s <> "" ->
  step c (DeleteClick s) =
  ({| props := props c;
      state := {| scopeValue := scopeValue (state c);
                  scopes := withoutValue s (scopes (state c));
                  errorMessage := errorMessage (state c) |} |},
   [onChange (buildScopesString (withoutValue s (scopes (state c))))]).
Proof.
  intros N. cbn [step setterCalls]. unfold handleLabelRemove.
  rewrite (isEmpty_Some_false _ N), filter_not_isEqual. reflexivity.
Qed.

End RemoveFacts.

(** C4: a removal with the empty target changes nothing; with a non-empty
    target [s] it commits the list without the tokens of value [s], the others
    in their order, and a target that no token holds leaves the list as it
    is. *)
Theorem remove_drops_every_match (c : Component) (s : string) :
  s <> "" ->
  let l := scopes (state c) in
  step c (DeleteClick "") = (c, [])
  /\ step c (DeleteClick s) =
     ({| props := props c;
         state := {| scopeValue := scopeValue (state c);
                     scopes := withoutValue s l;
                     errorMessage := errorMessage (state c) |} |},
      [onChange (buildScopesString (withoutValue s l))])
  /\ (forall t, In t (withoutValue s l) <-> In t l /\ value t <> s)
  /\ (forall l1 l2, l = l1 ++ l2 ->
        withoutValue s l = withoutValue s l1 ++ withoutValue s l2)
  /\ (~ In s (map value l) ->
      scopes (state (fst (step c (DeleteClick s)))) = l).
Proof.
  intros N l. split; [| split; [| split; [| split]]].
  - apply step_DeleteClick_empty.
  - apply (step_DeleteClick_nonempty c s N).
  - intros t. apply withoutValue_In.
  - intros l1 l2 ->. apply withoutValue_app.
  - intros H. rewrite (step_DeleteClick_nonempty c s N). cbn [fst state scopes].
    now apply withoutValue_absent.
Qed.

Lemma remove_drops_every_match_witness :
  "profile" <> ""
  /\ step (withState (openidProps None) "" ["openid"; "profile"; "email"])
          (DeleteClick "profile") =
     (withState (openidProps None) "" ["openid"; "email"],
      [onChange "openid email"])
  /\ step (withState (openidProps None) "" ["openid"; "profile"; "email"])
          (DeleteClick "") =
     (withState (openidProps None) "" ["openid"; "profile"; "email"], []).
Proof.
  assert (N : "profile" <> "") by discriminate.
  split; [exact N |].
  split.
  - exact (proj1 (proj2 (remove_drops_every_match
       (withState (openidProps None) "" ["openid"; "profile"; "email"]) _ N))).
  - exact (proj1 (remove_drops_every_match
       (withState (openidProps None) "" ["openid"; "profile"; "email"]) _ N)).
Defined.

(** ** The external value *)

(** C5: when the value effect runs on a non-empty string [v], at mount or
    after [v] replaced another value, the list becomes one token per piece of
    the split of [v] on the single space, in split order.  Nothing is dropped
    or merged: the pieces joined by a space are [v] again, there is one more
    piece than [v] has spaces, and no piece holds a space; so a value repeated
    in [v] gives repeated tokens and two adjacent spaces give a token with the
    empty value. *)
Theorem value_parsed_piece_by_piece
  (p : ScopesPropsInterface) (c : Component) (v : string) :
  v <> "" -> prop_value p = Some v -> prop_value (props c) <> Some v ->
  let parsed := map buildScope (JS.split SCOPE_SEPARATOR v) in
  mount p =
    ({| props := p;
        state := {| scopeValue := ""; scopes := parsed; errorMessage := "" |} |},
     [onChange ""; onChange v])
  /\ step c (Rerender p) =
     ({| props := p;
         state := {| scopeValue := scopeValue (state c); scopes := parsed;
                     errorMessage := errorMessage (state c) |} |},
      [onChange v])
  /\ buildScopesString parsed = v
  /\ List.length parsed = S (countSpaces v)
  /\ Forall (fun t => spaceFree (value t)) parsed.
Proof.
  intros N Hp Hc parsed.
  assert (Hj : buildScopesString parsed = v) by apply buildScopesString_parsed.
  split; [| split; [| split; [| split]]].
  - unfold mount. rewrite Hp, (valueEffect_nonempty _ N). fold parsed.
    clearbody parsed. unfold flush, scopesEffect, fireOnChangeEvent.
    cbn -[buildScopesString]. rewrite Hj. reflexivity.
  - cbn [step setterCalls].
    destruct (option_string_eqb (prop_value (props c)) (prop_value p)) eqn:E.
    + apply option_string_eqb_spec in E. congruence.
    + rewrite Hp, (valueEffect_nonempty _ N). fold parsed.
      clearbody parsed. unfold flush, scopesEffect, fireOnChangeEvent.
      cbn -[buildScopesString]. rewrite Hj. reflexivity.
  - exact Hj.
  - unfold parsed. rewrite length_map. apply split_space_length.
  - unfold parsed. apply Forall_map. cbn [buildScope value].
    apply split_space_pieces.
Qed.

Lemma value_parsed_piece_by_piece_witness :
  ("openid  openid" <> ""
   /\ prop_value (openidProps (Some "openid  openid")) = Some "openid  openid"
   /\ prop_value (props (withState (openidProps (Some "email")) "" ["email"]))
      <> Some "openid  openid")
  /\ step (withState (openidProps (Some "email")) "" ["email"])
          (Rerender (openidProps (Some "openid  openid"))) =
     (withState (openidProps (Some "openid  openid")) "" ["openid"; ""; "openid"],
      [onChange "openid  openid"])
  /\ mount (openidProps (Some "openid  openid")) =
     (withState (openidProps (Some "openid  openid")) "" ["openid"; ""; "openid"],
      [onChange ""; onChange "openid  openid"]).
Proof.
  assert (N : "openid  openid" <> "") by discriminate.
  assert (Hc : prop_value (props (withState (openidProps (Some "email")) "" ["email"]))
               <> Some "openid  openid") by discriminate.
  split; [repeat split; [exact N | exact Hc] |].
  split.
  - exact (proj1 (proj2 (value_parsed_piece_by_piece
       (openidProps (Some "openid  openid")) _ _ N eq_refl Hc))).
  - exact (proj1 (value_parsed_piece_by_piece
       (openidProps (Some "openid  openid")) _ _ N eq_refl Hc)).
Defined.

(** C6: when the value prop is, or becomes, empty or undefined, the value
    effect calls no setter: the list, and the rest of the state, stay as they
    were and [onChange] is not called; at mount the list stays the initial
    one. *)
Theorem empty_value_leaves_list (p : ScopesPropsInterface) (c : Component) :
  prop_value p = None \/ prop_value p = Some "" ->
  valueEffect (prop_value p) = []
  /\ step c (Rerender p) = ({| props := p; state := state c |}, [])
  /\ scopes (state (fst (step c (Rerender p)))) = scopes (state c)
  /\ mount p = ({| props := p; state := initialState |}, [onChange ""]).
Proof.
  intros H.
  assert (E : valueEffect (prop_value p) = []).
  { apply valueEffect_empty. destruct H as [-> | ->]; reflexivity. }
  assert (S : step c (Rerender p) = ({| props := p; state := state c |}, [])).
  { cbn [step setterCalls]. rewrite E. now destruct (option_string_eqb _ _). }
  split; [exact E | split; [exact S | split]].
  - now rewrite S.
  - unfold mount. now rewrite E.
Qed.

Lemma empty_value_leaves_list_witness :
  (prop_value (openidProps (Some "")) = None
   \/ prop_value (openidProps (Some "")) = Some "")
  /\ step (withState (openidProps (Some "openid")) "" ["openid"])
          (Rerender (openidProps (Some ""))) =
     (withState (openidProps (Some "")) "" ["openid"], []).
Proof.
  split; [right; reflexivity |].
  exact (proj1 (proj2 (empty_value_leaves_list (openidProps (Some ""))
     (withState (openidProps (Some "openid")) "" ["openid"]) (or_intror eq_refl)))).
Defined.

(** ** The pending input *)

Section InputFacts.

Lemma step_InputChange (c : Component) (data : string) :
  step c (InputChange data) =
  ({| props := props c;
      state := {| scopeValue := JS.trim data; scopes := scopes (state c);
                  errorMessage := errorMessage (state c) |} |}, []).
Proof. reflexivity. Qed.

Lemma run_two (c : Component) (a b : Action) :
  run c [a; b] =
  (fst (step (fst (step c a)) b), snd (step c a) ++ snd (step (fst (step c a)) b)).
Proof.
  cbn [run]. destruct (step c a) as [c1 calls1]. cbn [fst snd].
  destruct (step c1 b) as [c2 calls2]. cbn [fst snd]. now rewrite app_nil_r.
Qed.

End InputFacts.

(** C7: an add with the empty pending input leaves the component as it is
    and calls nothing, from the button and from the Enter key; an input of
    white space only is trimmed to the empty pending input when it is typed,
    so an add after it is such a no-op. *)
Theorem empty_add_changes_nothing (c typing : Component) (data : string) :
  scopeValue (state c) = "" -> whitespaceOnly data ->
  step c AddClick = (c, [])
  /\ step c (InputKeyDown "Enter") = (c, [])
  /\ scopeValue (state (fst (step typing (InputChange data)))) = ""
  /\ scopes (state (fst (run typing [InputChange data; AddClick]))) =
     scopes (state typing)
  /\ snd (run typing [InputChange data; AddClick]) = []
  /\ snd (run typing [InputChange data; InputKeyDown "Enter"]) = [].
Proof.
  intros E W.
  pose proof (step_AddClick_empty c E) as A.
  assert (T : step typing (InputChange data) =
              ({| props := props typing;
                  state := {| scopeValue := ""; scopes := scopes (state typing);
                              errorMessage := errorMessage (state typing) |} |}, [])).
  { rewrite step_InputChange. now rewrite (trim_whitespaceOnly _ W). }
  split; [exact A | split; [now rewrite step_Enter | split]].
  - now rewrite T.
  - rewrite !run_two, step_Enter, T. cbn [fst snd].
    rewrite step_AddClick_empty by reflexivity. repeat split.
Qed.

Lemma empty_add_changes_nothing_witness :
  (scopeValue (state (withState (openidProps None) "" ["openid"])) = ""
   /\ whitespaceOnly "   ")
  /\ step (withState (openidProps None) "" ["openid"]) AddClick =
     (withState (openidProps None) "" ["openid"], [])
  /\ run (withState (openidProps None) "mail" ["openid"])
         [InputChange "   "; AddClick] =
     (withState (openidProps None) "" ["openid"], []).
Proof.
  split; [split; reflexivity |].
  split; [| reflexivity].
  exact (proj1 (empty_add_changes_nothing
                  (withState (openidProps None) "" ["openid"])
                  (withState (openidProps None) "mail" ["openid"])
                  "   " eq_refl eq_refl)).
Defined.

(** ** The default scope *)

Section RenderFacts.

Lemma mapIndexed_In {A B : Type} (f : A -> nat -> B) (l : list A) (index : nat) (y : B) :
  In y (mapIndexed f index l) -> exists a k, In a l /\ y = f a k.
Proof.
  revert index.
  induction l as [| a r IH]; intros index; cbn [mapIndexed In]; [tauto |].
  intros [<- | H].
  - exists a, index. tauto.
  - destruct (IH _ H) as (b & k & Hb & ->). exists b, k. tauto.
Qed.

Lemma In_mapIndexed {A B : Type} (f : A -> nat -> B) (l : list A) (index : nat) (a : A) :
  In a l -> exists k, In (f a k) (mapIndexed f index l).
Proof.
  revert index.
  induction l as [| b r IH]; intros index; cbn [mapIndexed In]; [tauto |].
  intros [-> | H].
  - exists index. now left.
  - destruct (IH (S index) H) as (k & Hk). exists k. now right.
Qed.

Lemma renderLabel_text (d : string) (t : ScopeInterface) (k : nat) :
  label_text (renderLabel d t k) = value t.
Proof. unfold renderLabel. now destruct (String.eqb (value t) d). Qed.

Lemma renderLabel_delete (d : string) (t : ScopeInterface) (k : nat) :
  label_delete (renderLabel d t k) =
  if String.eqb (value t) d then None else Some (value t).
Proof. unfold renderLabel. now destruct (String.eqb (value t) d). Qed.

Lemma render_never_offers_default (p : ScopesPropsInterface) (st : State) :
  ~ offersDelete (render p st) (defaultValue p).
Proof.
  intros (lbl & Hin & Hdel). cbn [render view_labels] in Hin.
  apply mapIndexed_In in Hin as (t & k & _ & ->).
  rewrite renderLabel_delete in Hdel.
  destruct (String.eqb_spec (value t) (defaultValue p)) as [E | N]; [discriminate |].
  congruence.
Qed.

Lemma render_offers_others (p : ScopesPropsInterface) (st : State) (t : ScopeInterface) :
  In t (scopes st) -> value t <> defaultValue p -> offersDelete (render p st) (value t).
Proof.
  intros Hin N. cbn [render].
  destruct (In_mapIndexed (renderLabel (defaultValue p)) (scopes st) 0 t Hin) as (k & Hk).
  exists (renderLabel (defaultValue p) t k). split; [exact Hk |].
  rewrite renderLabel_delete. apply String.eqb_neq in N. now rewrite N.
Qed.

End RenderFacts.

(** C8: the token whose value is the default scope is rendered without a
    delete icon, while every other token is rendered with one; the remove
    operation itself does not look at the default scope: invoked with the
    default scope's value it removes that token like any other, whatever the
    props are, and notifies [onChange]. *)
Theorem default_scope_guarded_by_render_only (c : Component) (d : string) :
  defaultValue (props c) = d -> d <> "" -> In (buildScope d) (scopes (state c)) ->
  ~ offersDelete (render (props c) (state c)) d
  /\ (forall t, In t (scopes (state c)) -> value t <> d ->
        offersDelete (render (props c) (state c)) (value t))
  /\ step c (DeleteClick d) =
     ({| props := props c;
         state := {| scopeValue := scopeValue (state c);
                     scopes := withoutValue d (scopes (state c));
                     errorMessage := errorMessage (state c) |} |},
      [onChange (buildScopesString (withoutValue d (scopes (state c))))])
  /\ ~ In (buildScope d) (scopes (state (fst (step c (DeleteClick d)))))
  /\ (forall p', state (fst (step {| props := p'; state := state c |} (DeleteClick d))) =
                 state (fst (step c (DeleteClick d)))).
Proof.
  intros Hd N Hin.
  pose proof (step_DeleteClick_nonempty c d N) as S.
  split; [| split; [| split; [exact S | split]]].
  - rewrite <- Hd. apply render_never_offers_default.
  - intros t Ht Nt. apply render_offers_others; [exact Ht | congruence].
  - rewrite S. cbn [fst state scopes]. intros H.
    apply withoutValue_In in H as [_ H]. now apply H.
  - intros p'. rewrite S, (step_DeleteClick_nonempty _ d N). reflexivity.
Qed.

Lemma default_scope_guarded_by_render_only_witness :
  (defaultValue (props (withState (openidProps None) "" ["openid"; "profile"])) = "openid"
   /\ "openid" <> ""
   /\ In (buildScope "openid")
         (scopes (state (withState (openidProps None) "" ["openid"; "profile"]))))
  /\ view_labels (render (openidProps None)
                    (state (withState (openidProps None) "" ["openid"; "profile"]))) =
     [ {| label_key := 0; label_text := "openid"; label_delete := None |};
       {| label_key := 1; label_text := "profile"; label_delete := Some "profile" |} ]
  /\ step (withState (openidProps None) "" ["openid"; "profile"]) (DeleteClick "openid") =
     (withState (openidProps None) "" ["profile"], [onChange "profile"]).
Proof.
  assert (N : "openid" <> "") by discriminate.
  assert (Hin : In (buildScope "openid")
            (scopes (state (withState (openidProps None) "" ["openid"; "profile"]))))
    by (left; reflexivity).
  split; [repeat split; [exact N | exact Hin] |].
  split; [reflexivity |].
  exact (proj1 (proj2 (proj2 (default_scope_guarded_by_render_only
     (withState (openidProps None) "" ["openid"; "profile"]) "openid" eq_refl N Hin)))).
Defined.

(** ** The error message *)

Section ErrorFacts.

Lemma commit_keeps_error_empty (us : list SetState) (st : State) :
  clearsErrorOnly us -> errorMessage st = "" -> errorMessage (commit st us) = "".
Proof.
  unfold commit, clearsErrorOnly. revert st.
  induction us as [| u r IH]; intros st Hus Hst; [exact Hst |].
  inversion Hus as [| ? ? Hu Hr]; subst. cbn [fold_left].
  apply IH; [exact Hr |].
  destruct u; cbn [applySet errorMessage]; assumption.
Qed.

Lemma valueEffect_clearsErrorOnly (v : option string) : clearsErrorOnly (valueEffect v).
Proof.
  unfold valueEffect. destruct (isEmpty v); [constructor |].
  destruct v; repeat constructor.
Qed.

Lemma handleScopeAdd_clearsErrorOnly (st : State) : clearsErrorOnly (handleScopeAdd st).
Proof.
  unfold handleScopeAdd. destruct (isEmpty _); repeat constructor.
Qed.

Lemma setterCalls_clearsErrorOnly (c : Component) (a : Action) :
  clearsErrorOnly (setterCalls c a).
Proof.
  destruct a as [data | key | | | scope | p']; cbn [setterCalls].
  - repeat constructor.
  - unfold keyPressed. destruct (String.eqb key "Enter");
      [apply handleScopeAdd_clearsErrorOnly | constructor].
  - constructor.
  - apply handleScopeAdd_clearsErrorOnly.
  - unfold handleLabelRemove. destruct (isEmpty _); repeat constructor.
  - destruct (option_string_eqb _ _); [constructor | apply valueEffect_clearsErrorOnly].
Qed.

Lemma step_state (c : Component) (a : Action) :
  state (fst (step c a)) = commit (state c) (setterCalls c a).
Proof. destruct a; reflexivity. Qed.

Lemma mount_state (p : ScopesPropsInterface) :
  state (fst (mount p)) = commit initialState (valueEffect (prop_value p)).
Proof. reflexivity. Qed.

End ErrorFacts.

(** C9: in every state the component reaches from its mount, by any
    sequence of input changes, key presses, blurs, adds, removals and
    re-renders, the error message is the empty string, so its [Message] is
    never visible; the only setter call on it, in any batch, assigns the empty
    string. *)
Theorem error_message_always_empty (c : Component) :
  reachable c ->
  errorMessage (state c) = ""
  /\ view_message_visible (render (props c) (state c)) = false
  /\ (forall a, clearsErrorOnly (setterCalls c a)).
Proof.
  intros R.
  assert (E : errorMessage (state c) = "").
  { induction R as [p | c a R IH].
    - rewrite mount_state.
      apply commit_keeps_error_empty; [apply valueEffect_clearsErrorOnly | reflexivity].
    - rewrite step_state.
      apply commit_keeps_error_empty; [apply setterCalls_clearsErrorOnly | exact IH]. }
  split; [exact E | split].
  - cbn [render view_message_visible]. now rewrite E.
  - intros a. apply setterCalls_clearsErrorOnly.
Qed.

Lemma error_message_always_empty_witness :
  reachable (fst (step (fst (step (fst (mount (openidProps (Some "openid"))))
                                  (InputChange "email")))
                       AddClick))
  /\ errorMessage (state (fst (step (fst (step (fst (mount (openidProps (Some "openid"))))
                                               (InputChange "email")))
                                    AddClick))) = "".
Proof.
  assert (R : reachable (fst (step (fst (step (fst (mount (openidProps (Some "openid"))))
                                  (InputChange "email"))) AddClick))).
  { apply reachable_step, reachable_step, reachable_mount. }
  split; [exact R |].
  exact (proj1 (error_message_always_empty _ R)).
Defined.

(** ** Mounting *)

(** C10: mounting calls [onChange] first with the serialization of the
    initial, empty list, which is the empty string; when the value prop is
    empty or undefined that is the only call, and when it is a non-empty
    string [v] a second call follows that carries the parsed tokens joined by
    a space, which is [v] itself.  So the calls made at mount are never
    none. *)
Theorem mount_notifies_parent (p : ScopesPropsInterface) :
  buildScopesString (scopes initialState) = ""
  /\ (exists rest, snd (mount p) = onChange (buildScopesString (scopes initialState)) :: rest)
  /\ (isEmpty (prop_value p) = true -> snd (mount p) = [onChange ""])
  /\ (forall v, prop_value p = Some v -> v <> "" ->
        snd (mount p) =
          [onChange "";
           onChange (buildScopesString (map buildScope (JS.split SCOPE_SEPARATOR v)))]
        /\ snd (mount p) = [onChange ""; onChange v])
  /\ snd (mount p) <> [].
Proof.
  assert (H : forall q, snd (mount q) =
            onChange "" :: snd (flush q initialState (valueEffect (prop_value q)))).
  { intros q. unfold mount. now destruct (flush q initialState _). }
  split; [reflexivity | split; [| split; [| split]]].
  - rewrite H. eexists. reflexivity.
  - intros E. rewrite H, (valueEffect_empty _ E). reflexivity.
  - intros v Hv N. rewrite H, Hv, (valueEffect_nonempty _ N).
    unfold flush, scopesEffect, fireOnChangeEvent. cbn -[buildScopesString JS.split].
    split; [reflexivity |]. now rewrite buildScopesString_parsed.
  - rewrite H. discriminate.
Qed.

Lemma mount_notifies_parent_witness :
  snd (mount (openidProps (Some "openid profile"))) =
    [onChange ""; onChange "openid profile"]
  /\ snd (mount (openidProps None)) = [onChange ""].
Proof.
  assert (N : "openid profile" <> "") by discriminate.
  split.
  - exact (proj2 (proj1 (proj2 (proj2 (proj2
       (mount_notifies_parent (openidProps (Some "openid profile"))))))
       "openid profile" eq_refl N)).
  - exact (proj1 (proj2 (proj2 (mount_notifies_parent (openidProps None)))) eq_refl).
Defined.

(** ** Scenarios *)

(** Mounting with [openid profile] and then changing the value to
    [openid email] replaces the list and notifies the parent of each list. *)
Example external_resync_scenario :
  run (fst (mount (openidProps (Some "openid profile"))))
      [Rerender (openidProps (Some "openid email"))] =
  (withState (openidProps (Some "openid email")) "" ["openid"; "email"],
   [onChange "openid email"]).
Proof. reflexivity. Qed.

(** The split of the empty string is one empty piece; the value effect never
    reaches it, as it returns early on an empty value. *)
Example split_of_empty_string :
  JS.split SCOPE_SEPARATOR "" = [""] /\ valueEffect (Some "") = [].
Proof. split; reflexivity. Qed.

(** Leading and trailing white space is stripped as it is typed; white space
    inside the input stays and ends up inside the token. *)
Example typed_input_is_trimmed :
  run (withState (openidProps None) "" ["openid"])
      [InputChange "  read write "; InputKeyDown "Enter"] =
  (withState (openidProps None) "" ["read write"; "openid"],
   [onChange "read write openid"]).
Proof. reflexivity. Qed.

(** ** More on [trim] and the pending input *)

Section TrimFacts.

Lemma trimStart_starts (s : string) : startsWithWhiteSpace (JS.trimStart s) = false.
Proof.
  induction s as [| c r IH]; [reflexivity |].
  cbn [JS.trimStart]. destruct (JS.isWhiteSpace c) eqn:E; [exact IH |].
  cbn [startsWithWhiteSpace]. exact E.
Qed.

Lemma trimEnd_ends (s : string) : endsWithWhiteSpace (JS.trimEnd s) = false.
Proof.
  induction s as [| c r IH]; [reflexivity |].
  cbn [JS.trimEnd]. destruct (JS.trimEnd r) as [| d r'] eqn:Er.
  - destruct (JS.isWhiteSpace c) eqn:E; [reflexivity | exact E].
  - exact IH.
Qed.

Lemma trimEnd_keeps_start (s : string) :
  startsWithWhiteSpace s = false -> startsWithWhiteSpace (JS.trimEnd s) = false.
Proof.
  destruct s as [| c r]; [reflexivity |].
  cbn [startsWithWhiteSpace JS.trimEnd]. intros E.
  destruct (JS.trimEnd r); [rewrite E |]; exact E.
Qed.

Lemma trimStart_fixed (s : string) :
  startsWithWhiteSpace s = false -> JS.trimStart s = s.
Proof.
  destruct s as [| c r]; [reflexivity |].
  cbn [startsWithWhiteSpace JS.trimStart]. now intros ->.
Qed.

Lemma trimEnd_fixed (s : string) :
  endsWithWhiteSpace s = false -> JS.trimEnd s = s.
Proof.
  induction s as [| c r IH]; [reflexivity |].
  destruct r as [| d r'].
  - cbn. now intros ->.
  - intros E. change (endsWithWhiteSpace (String d r') = false) in E.
    change (JS.trimEnd (String c (String d r')))
      with (match JS.trimEnd (String d r') with
            | EmptyString => if JS.isWhiteSpace c then EmptyString else String c EmptyString
            | r'' => String c r''
            end).
    now rewrite (IH E).
Qed.

Lemma trim_no_outer_whitespace (s : string) :
  startsWithWhiteSpace (JS.trim s) = false /\ endsWithWhiteSpace (JS.trim s) = false.
Proof.
  unfold JS.trim. split.
  - apply trimEnd_keeps_start, trimStart_starts.
  - apply trimEnd_ends.
Qed.

Lemma trim_fixed (s : string) :
  startsWithWhiteSpace s = false -> endsWithWhiteSpace s = false -> JS.trim s = s.
Proof.
  intros Hs He. unfold JS.trim. rewrite (trimStart_fixed _ Hs). now apply trimEnd_fixed.
Qed.

Lemma trimEnd_empty (s : string) : JS.trimEnd s = "" -> whitespaceOnly s.
Proof.
  unfold whitespaceOnly.
  induction s as [| c r IH]; [reflexivity |].
  cbn [JS.trimEnd allChars]. destruct (JS.trimEnd r) as [| d r'].
  - destruct (JS.isWhiteSpace c); [intros _; now apply IH | discriminate].
  - discriminate.
Qed.

Lemma trimStart_whitespaceOnly_inv (s : string) :
  whitespaceOnly (JS.trimStart s) -> whitespaceOnly s.
Proof.
  unfold whitespaceOnly.
  induction s as [| c r IH]; [reflexivity |].
  cbn [JS.trimStart]. destruct (JS.isWhiteSpace c) eqn:E.
  - intros H. cbn [allChars]. rewrite E. now apply IH.
  - now intros H.
Qed.

Lemma trim_empty_iff (s : string) : JS.trim s = "" <-> whitespaceOnly s.
Proof.
  split; [| apply trim_whitespaceOnly].
  intros E. apply trimStart_whitespaceOnly_inv, trimEnd_empty. exact E.
Qed.

Lemma commit_writesPending (P : string -> Prop) (us : list SetState) (st : State) :
  writesPending P us -> P (scopeValue st) -> P (scopeValue (commit st us)).
Proof.
  unfold commit, writesPending. revert st.
  induction us as [| u r IH]; intros st Hus Hst; [exact Hst |].
  inversion Hus as [| ? ? Hu Hr]; subst. cbn [fold_left].
  apply IH; [exact Hr |].
  destruct u; cbn [applySet scopeValue]; assumption.
Qed.

Lemma setterCalls_writesPending (P : string -> Prop) (c : Component) (a : Action) :
  P "" -> (forall data, P (JS.trim data)) -> writesPending P (setterCalls c a).
Proof.
  intros P0 Pt.
  assert (A : forall st, writesPending P (handleScopeAdd st)).
  { intros st. unfold handleScopeAdd. destruct (isEmpty _); repeat constructor. exact P0. }
  destruct a as [data | key | | | scope | p']; cbn [setterCalls].
  - repeat constructor. apply Pt.
  - unfold keyPressed. destruct (String.eqb key "Enter"); [apply A | constructor].
  - constructor.
  - apply A.
  - unfold handleLabelRemove. destruct (isEmpty _); repeat constructor.
  - destruct (option_string_eqb _ _); [constructor |].
    unfold valueEffect. destruct (isEmpty _); [constructor |].
    destruct (prop_value p'); repeat constructor.
Qed.

End TrimFacts.

(** X1: in every state the component reaches, the pending input is trimmed:
    it neither starts nor ends with white space, so trimming it again gives
    it back. *)
Theorem pending_input_always_trimmed (c : Component) :
  reachable c ->
  startsWithWhiteSpace (scopeValue (state c)) = false
  /\ endsWithWhiteSpace (scopeValue (state c)) = false
  /\ JS.trim (scopeValue (state c)) = scopeValue (state c).
Proof.
  intros R.
  set (P := fun s => startsWithWhiteSpace s = false /\ endsWithWhiteSpace s = false).
  assert (H : P (scopeValue (state c))).
  { induction R as [p | c a R IH].
    - rewrite mount_state. apply (commit_writesPending P); [| split; reflexivity].
      unfold valueEffect. destruct (isEmpty _); [constructor |].
      destruct (prop_value p); repeat constructor.
    - rewrite step_state. apply (commit_writesPending P); [| exact IH].
      apply setterCalls_writesPending; [split; reflexivity |].
      intros data. apply trim_no_outer_whitespace. }
  destruct H as [Hs He]. repeat split; try assumption.
  now apply trim_fixed.
Qed.

Lemma pending_input_always_trimmed_witness :
  reachable (fst (step (fst (mount (openidProps (Some "openid"))))
                       (InputChange "  read write  ")))
  /\ scopeValue (state (fst (step (fst (mount (openidProps (Some "openid"))))
                                  (InputChange "  read write  ")))) = "read write"
  /\ endsWithWhiteSpace
       (scopeValue (state (fst (step (fst (mount (openidProps (Some "openid"))))
                                     (InputChange "  read write  "))))) = false.
Proof.
  assert (R : reachable (fst (step (fst (mount (openidProps (Some "openid"))))
                                   (InputChange "  read write  ")))).
  { apply reachable_step, reachable_mount. }
  split; [exact R |].
  split; [reflexivity |].
  exact (proj1 (proj2 (pending_input_always_trimmed _ R))).
Defined.

(** X2: typing [data] and then adding notifies nobody exactly when [data]
    is white space only; otherwise the add commits a list whose first token is
    the trimmed input, which is not empty, and calls [onChange] once with the
    serialization of that list. *)
Theorem typed_input_commits_unless_blank (c : Component) (data : string) :
  (snd (run c [InputChange data; AddClick]) = [] <-> whitespaceOnly data)
  /\ (~ whitespaceOnly data ->
      JS.trim data <> ""
      /\ hd_error (scopes (state (fst (run c [InputChange data; AddClick])))) =
         Some (buildScope (JS.trim data))
      /\ snd (run c [InputChange data; AddClick]) =
         [onChange (buildScopesString
                      (scopes (state (fst (run c [InputChange data; AddClick])))))]).
Proof.
  rewrite run_two, step_InputChange. cbn [fst snd app].
  set (typed := {| props := props c;
                   state := {| scopeValue := JS.trim data; scopes := scopes (state c);
                               errorMessage := errorMessage (state c) |} |}).
  destruct (string_dec (JS.trim data) "") as [E | N].
  - pose proof (proj1 (trim_empty_iff data) E) as W.
    rewrite step_AddClick_empty by exact E.
    split; [tauto | intros H; contradiction].
  - assert (NW : ~ whitespaceOnly data) by (intros W; now apply trim_empty_iff in W).
    rewrite (step_AddClick_nonempty typed N). cbn [fst snd state scopes typed scopeValue].
    split; [split; [discriminate | tauto] |].
    intros _. split; [exact N |]. split; [| reflexivity].
    now rewrite addOutput_eq.
Qed.

Lemma typed_input_commits_unless_blank_witness :
  ~ whitespaceOnly " email "
  /\ run (withState (openidProps None) "" ["openid"]) [InputChange " email "; AddClick] =
     (withState (openidProps None) "" ["email"; "openid"], [onChange "email openid"])
  /\ hd_error (scopes (state (fst (run (withState (openidProps None) "" ["openid"])
                                       [InputChange " email "; AddClick])))) =
     Some (buildScope (JS.trim " email ")).
Proof.
  assert (NW : ~ whitespaceOnly " email ") by discriminate.
  split; [exact NW |]. split; [reflexivity |].
  exact (proj1 (proj2 (proj2 (typed_input_commits_unless_blank
     (withState (openidProps None) "" ["openid"]) " email ") NW))).
Defined.

(** ** What the parent is told *)

Section NotifyFacts.

Lemma commit_scopes_unchanged (us : list SetState) (st : State) :
  scopesChanged us = false -> scopes (commit st us) = scopes st.
Proof.
  unfold commit, scopesChanged. revert st.
  induction us as [| u r IH]; intros st H; [reflexivity |].
  cbn [existsb] in H. apply orb_false_iff in H as [Hu Hr].
  cbn [fold_left]. rewrite (IH _ Hr).
  destruct u; [reflexivity | discriminate Hu | reflexivity].
Qed.

Lemma lastOnChange_app (tr calls : list Callback) :
  lastOnChange (tr ++ calls) =
  match lastOnChange calls with
  | Some v => Some v
  | None => lastOnChange tr
  end.
Proof.
  unfold lastOnChange. rewrite fold_left_app.
  generalize (fold_left (fun acc call => match call with
                                         | onChange v => Some v
                                         | onBlur => acc
                                         end) tr None) as acc.
  induction calls as [| call r IH] using rev_ind; intros acc; [now destruct acc |].
  rewrite !fold_left_app. cbn [fold_left]. destruct call; [reflexivity |].
  apply IH.
Qed.

(** One action calls [onChange] at most once, as its last call, and then
    with the serialization of the list it committed; when it does not call
    [onChange], the list is the one before. *)
Lemma step_calls (c : Component) (a : Action) :
  (lastOnChange (snd (step c a)) = None
   /\ scopes (state (fst (step c a))) = scopes (state c))
  \/ lastOnChange (snd (step c a)) =
     Some (buildScopesString (scopes (state (fst (step c a))))).
Proof.
  assert (F : forall p st us,
    (lastOnChange (snd (flush p st us)) = None
     /\ scopes (state (fst (flush p st us))) = scopes st)
    \/ lastOnChange (snd (flush p st us)) =
       Some (buildScopesString (scopes (state (fst (flush p st us)))))).
  { intros p st us. unfold flush. cbn [fst snd state].
    destruct (scopesChanged us) eqn:E.
    - right. reflexivity.
    - left. split; [reflexivity | now apply commit_scopes_unchanged]. }
  destruct a; cbn [step]; try apply F.
  left. split; reflexivity.
Qed.

Lemma run_app_calls (actions : list Action) (c : Component) (tr : list Callback) :
  lastOnChange tr = Some (buildScopesString (scopes (state c))) ->
  lastOnChange (tr ++ snd (run c actions)) =
  Some (buildScopesString (scopes (state (fst (run c actions))))).
Proof.
  revert c tr.
  induction actions as [| a rest IH]; intros c tr H.
  - cbn [run fst snd]. now rewrite app_nil_r.
  - cbn [run]. destruct (step c a) as [c1 calls1] eqn:S.
    specialize (IH c1 (tr ++ calls1)).
    destruct (run c1 rest) as [c2 calls2]. cbn [fst snd] in *.
    rewrite app_assoc. apply IH.
    rewrite lastOnChange_app.
    pose proof (step_calls c a) as D. rewrite S in D. cbn [fst snd] in D.
    destruct D as [[D1 D2] | D]; [now rewrite D1, D2 | now rewrite D].
Qed.

End NotifyFacts.

(** X3: at every moment after the mount, the string of the last [onChange]
    call the parent received is the serialization of the list the component
    holds, whatever the props at mount and whatever actions followed. *)
Theorem parent_holds_current_serialization
  (p : ScopesPropsInterface) (actions : list Action) :
  lastOnChange (snd (mount p) ++ snd (run (fst (mount p)) actions)) =
  Some (buildScopesString (scopes (state (fst (run (fst (mount p)) actions))))).
Proof.
  apply run_app_calls.
  unfold mount, flush. cbn [fst snd state].
  destruct (scopesChanged (valueEffect (prop_value p))) eqn:E.
  - reflexivity.
  - cbn [app]. rewrite (commit_scopes_unchanged _ _ E). reflexivity.
Qed.

(** ** Adds and removals composed *)

Section ComposeFacts.

Lemma filter_others_withoutValue (s : string) (l : list ScopeInterface) :
  filter (fun t => negb (String.eqb (value t) s)) l = withoutValue s l.
Proof.
  induction l as [| t r IH]; [reflexivity |].
  cbn [filter withoutValue].
  destruct (string_dec (value t) s) as [E | N].
  - rewrite E, String.eqb_refl. exact IH.
  - apply String.eqb_neq in N. rewrite N. cbn [negb]. now rewrite IH.
Qed.

Lemma withoutValue_values (s v : string) (l : list ScopeInterface) :
  In v (map value (withoutValue s l)) <-> In v (map value l) /\ v <> s.
Proof.
  rewrite !in_map_iff. split.
  - intros (t & <- & Ht). apply withoutValue_In in Ht as [Ht N].
    split; [exists t; tauto | exact N].
  - intros [(t & <- & Ht) N]. exists t. split; [reflexivity |].
    apply withoutValue_In. tauto.
Qed.

Lemma withoutValue_unique (s : string) (l : list ScopeInterface) :
  uniqueTokens l -> uniqueTokens (withoutValue s l).
Proof.
  unfold uniqueTokens.
  induction l as [| t r IH]; intros H; [constructor |].
  inversion H as [| ? ? Hn Hr]; subst. cbn [withoutValue].
  destruct (string_dec (value t) s); [now apply IH |].
  cbn [map]. constructor; [| now apply IH].
  intros Hin. apply withoutValue_values in Hin. tauto.
Qed.

Lemma withoutValue_idempotent (s : string) (l : list ScopeInterface) :
  withoutValue s (withoutValue s l) = withoutValue s l.
Proof.
  apply withoutValue_absent. intros H. apply withoutValue_values in H. tauto.
Qed.

Lemma withoutValue_comm (a b : string) (l : list ScopeInterface) :
  withoutValue a (withoutValue b l) = withoutValue b (withoutValue a l).
Proof.
  induction l as [| t r IH]; [reflexivity |].
  cbn [withoutValue].
  destruct (string_dec (value t) b) as [Eb | Nb], (string_dec (value t) a) as [Ea | Na];
    cbn [withoutValue].
  - exact IH.
  - destruct (string_dec (value t) b); [exact IH | contradiction].
  - destruct (string_dec (value t) a); [exact IH | contradiction].
  - destruct (string_dec (value t) a), (string_dec (value t) b); try contradiction.
    now rewrite IH.
Qed.

Lemma addOutput_head_unique (x : string) (r : list ScopeInterface) :
  uniqueTokens ({| value := x |} :: r) ->
  addOutput x ({| value := x |} :: r) = {| value := x |} :: r.
Proof.
  intros Hu. rewrite (addOutput_unique _ _ Hu). unfold addKeepingOthers.
  cbn [filter value]. rewrite String.eqb_refl. cbn [negb]. f_equal.
  apply filter_absent. unfold uniqueTokens in Hu. cbn [map value] in Hu.
  now inversion Hu.
Qed.

Lemma addOutput_is_unique (x : string) (l : list ScopeInterface) :
  uniqueTokens (addOutput x l).
Proof.
  rewrite addOutput_eq. unfold uniqueTokens. cbn [map value].
  apply (appendFresh_NoDup [x] l). repeat constructor. intros [].
Qed.

Lemma addOutput_idempotent (x : string) (l : list ScopeInterface) :
  addOutput x (addOutput x l) = addOutput x l.
Proof.
  rewrite (addOutput_eq x l). apply addOutput_head_unique.
  rewrite <- addOutput_eq. apply addOutput_is_unique.
Qed.

Lemma state_eta (st : State) :
  {| scopeValue := scopeValue st; scopes := scopes st; errorMessage := errorMessage st |} = st.
Proof. destruct st; reflexivity. Qed.

End ComposeFacts.

(** X4: adding the same token twice in a row is the same as adding it once:
    after an add of the trimmed, non-empty token [x], typing [x] again and
    adding leaves the list as the first add made it. *)
Theorem add_same_token_twice (c : Component) :
  scopeValue (state c) <> "" ->
  JS.trim (scopeValue (state c)) = scopeValue (state c) ->
  scopes (state (fst (run c [AddClick; InputChange (scopeValue (state c)); AddClick]))) =
  scopes (state (fst (step c AddClick))).
Proof.
  intros N T. cbn [run].
  rewrite (step_AddClick_nonempty c N). cbn [fst snd].
  rewrite step_InputChange, T. cbn [props state scopes errorMessage].
  match goal with |- context [step ?typed AddClick] =>
    rewrite (step_AddClick_nonempty typed N) end.
  cbn [fst state scopes scopeValue]. apply addOutput_idempotent.
Qed.

Lemma add_same_token_twice_witness :
  (scopeValue (state (withState (openidProps None) "email" ["openid"; "email"; "openid"]))
     <> ""
   /\ JS.trim "email" = "email")
  /\ scopes (state (fst (run (withState (openidProps None) "email"
                                        ["openid"; "email"; "openid"])
                             [AddClick; InputChange "email"; AddClick]))) =
     map buildScope ["email"; "openid"].
Proof.
  assert (N : scopeValue (state (withState (openidProps None) "email"
                                           ["openid"; "email"; "openid"])) <> "")
    by discriminate.
  split; [split; [exact N | reflexivity] |].
  exact (add_same_token_twice _ N eq_refl).
Defined.

(** X5: an add empties the pending input, so a second add right after it,
    a double click on the button or a repeated Enter, changes nothing and
    notifies nobody. *)
Theorem second_add_in_a_row_is_noop (c : Component) :
  step (fst (step c AddClick)) AddClick = (fst (step c AddClick), [])
  /\ step (fst (step c (InputKeyDown "Enter"))) (InputKeyDown "Enter") =
     (fst (step c (InputKeyDown "Enter")), []).
Proof.
  assert (H : step (fst (step c AddClick)) AddClick = (fst (step c AddClick), [])).
  { destruct (string_dec (scopeValue (state c)) "") as [E | N].
    - rewrite (step_AddClick_empty c E). cbn [fst]. now apply step_AddClick_empty.
    - rewrite (step_AddClick_nonempty c N). cbn [fst]. now apply step_AddClick_empty. }
  split; [exact H | now rewrite !step_Enter].
Qed.

(** X6: on a list without duplicates, adding the non-empty token [x] and
    then removing [x] gives the list without [x]; when [x] was not in the
    list, the list is back as it was. *)
Theorem add_then_remove (c : Component) :
  scopeValue (state c) <> "" -> uniqueTokens (scopes (state c)) ->
  let x := scopeValue (state c) in
  let l := scopes (state c) in
  scopes (state (fst (run c [AddClick; DeleteClick x]))) = withoutValue x l
  /\ (~ In x (map value l) ->
      scopes (state (fst (run c [AddClick; DeleteClick x]))) = l).
Proof.
  intros N Hu x l.
  assert (E : scopes (state (fst (run c [AddClick; DeleteClick x]))) = withoutValue x l).
  { cbn [run]. rewrite (step_AddClick_nonempty c N). cbn [fst snd].
    match goal with |- context [step ?added (DeleteClick x)] =>
      rewrite (step_DeleteClick_nonempty added x N) end.
    cbn [fst state scopes]. fold x l.
    rewrite (addOutput_unique x l Hu). unfold addKeepingOthers.
    cbn [withoutValue value]. destruct (string_dec x x) as [_ | F]; [| contradiction].
    rewrite filter_others_withoutValue. apply withoutValue_idempotent. }
  split; [exact E |].
  intros Ha. rewrite E. now apply withoutValue_absent.
Qed.

Lemma add_then_remove_witness :
  (scopeValue (state (withState (openidProps None) "email" ["openid"; "profile"])) <> ""
   /\ uniqueTokens (scopes (state (withState (openidProps None) "email"
                                             ["openid"; "profile"]))))
  /\ scopes (state (fst (run (withState (openidProps None) "email" ["openid"; "profile"])
                             [AddClick; DeleteClick "email"]))) =
     map buildScope ["openid"; "profile"].
Proof.
  assert (N : scopeValue (state (withState (openidProps None) "email"
                                           ["openid"; "profile"])) <> "") by discriminate.
  assert (Hu : uniqueTokens (scopes (state (withState (openidProps None) "email"
                                                      ["openid"; "profile"])))).
  { unfold uniqueTokens. repeat constructor; cbn; intuition discriminate. }
  split; [split; assumption |].
  exact (proj1 (add_then_remove _ N Hu)).
Defined.

(** ** What the user alone can do to the list *)

Section UserFacts.

(** A user action leaves the list, or adds a non-empty token to it, or
    removes a non-empty value from it. *)
Lemma step_user_scopes (c : Component) (a : Action) :
  isRerender a = false ->
  let l := scopes (state c) in
  let l' := scopes (state (fst (step c a))) in
  l' = l
  \/ (exists x, x <> "" /\ l' = addOutput x l)
  \/ (exists s, s <> "" /\ l' = withoutValue s l).
Proof.
  intros Hr l l'. subst l l'.
  assert (A : scopes (state (fst (step c AddClick))) = scopes (state c)
              \/ (exists x, x <> "" /\
                    scopes (state (fst (step c AddClick))) = addOutput x (scopes (state c)))).
  { destruct (string_dec (scopeValue (state c)) "") as [E | N].
    - left. now rewrite (step_AddClick_empty c E).
    - right. exists (scopeValue (state c)). split; [exact N |].
      now rewrite (step_AddClick_nonempty c N). }
  destruct a as [data | key | | | s | p']; try discriminate Hr.
  - left. reflexivity.
  - destruct (String.eqb_spec key "Enter") as [-> | Nk].
    + rewrite step_Enter. tauto.
    + left. cbn [step setterCalls]. unfold keyPressed.
      apply String.eqb_neq in Nk. now rewrite Nk.
  - left. reflexivity.
  - tauto.
  - destruct (string_dec s "") as [-> | N].
    + left. now rewrite step_DeleteClick_empty.
    + right. right. exists s. split; [exact N |].
      now rewrite (step_DeleteClick_nonempty c s N).
Qed.

Lemma step_user_props (c : Component) (a : Action) :
  isRerender a = false -> props (fst (step c a)) = props c.
Proof. destruct a; try discriminate; reflexivity. Qed.

Lemma run_cons (c : Component) (a : Action) (rest : list Action) :
  fst (run c (a :: rest)) = fst (run (fst (step c a)) rest).
Proof.
  cbn [run]. destruct (step c a) as [c1 calls1]. cbn [fst].
  now destruct (run c1 rest).
Qed.

Lemma run_user_preserves (P : list ScopeInterface -> Prop) :
  (forall c a, isRerender a = false ->
     P (scopes (state c)) -> P (scopes (state (fst (step c a))))) ->
  forall actions c, userActions actions ->
    P (scopes (state c)) -> P (scopes (state (fst (run c actions)))).
Proof.
  intros Hstep actions.
  induction actions as [| a rest IH]; intros c Hu Hc; [exact Hc |].
  inversion Hu as [| ? ? Ha Hrest]; subst.
  rewrite run_cons. apply IH; [exact Hrest |]. now apply Hstep.
Qed.

Lemma run_user_props (actions : list Action) (c : Component) :
  userActions actions -> props (fst (run c actions)) = props c.
Proof.
  revert c.
  induction actions as [| a rest IH]; intros c Hu; [reflexivity |].
  inversion Hu as [| ? ? Ha Hrest]; subst.
  rewrite run_cons, (IH _ Hrest). now apply step_user_props.
Qed.

Lemma step_DeleteClick_fst (c : Component) (s : string) :
  fst (step c (DeleteClick s)) =
  {| props := props c;
     state := {| scopeValue := scopeValue (state c);
                 scopes := if string_dec s "" then scopes (state c)
                           else withoutValue s (scopes (state c));
                 errorMessage := errorMessage (state c) |} |}.
Proof.
  destruct (string_dec s "") as [-> | N].
  - rewrite step_DeleteClick_empty. cbn [fst]. now rewrite state_eta, component_eta.
  - now rewrite (step_DeleteClick_nonempty c s N).
Qed.

End UserFacts.

(** X7: the user's actions keep a duplicate-free list duplicate-free: if no
    two tokens of the list have the same value, that still holds after any
    sequence of input changes, key presses, blurs, adds and removals. *)
Theorem user_actions_keep_list_unique (c : Component) (actions : list Action) :
  userActions actions -> uniqueTokens (scopes (state c)) ->
  uniqueTokens (scopes (state (fst (run c actions)))).
Proof.
  apply (run_user_preserves uniqueTokens).
  intros c0 a Ha Hu.
  destruct (step_user_scopes c0 a Ha) as [-> | [(x & _ & ->) | (s & _ & ->)]].
  - exact Hu.
  - apply addOutput_is_unique.
  - now apply withoutValue_unique.
Qed.

Lemma user_actions_keep_list_unique_witness :
  (userActions [InputChange "openid"; AddClick; DeleteClick "email"; InputBlur]
   /\ uniqueTokens (scopes (state (withState (openidProps None) "" ["openid"; "email"]))))
  /\ fst (run (withState (openidProps None) "" ["openid"; "email"])
              [InputChange "openid"; AddClick; DeleteClick "email"; InputBlur]) =
     withState (openidProps None) "" ["openid"]
  /\ uniqueTokens
       (scopes (state (fst (run (withState (openidProps None) "" ["openid"; "email"])
              [InputChange "openid"; AddClick; DeleteClick "email"; InputBlur])))).
Proof.
  assert (Ha : userActions [InputChange "openid"; AddClick; DeleteClick "email"; InputBlur])
    by (repeat constructor).
  assert (Hu : uniqueTokens (scopes (state (withState (openidProps None) ""
                                                      ["openid"; "email"])))).
  { unfold uniqueTokens. repeat constructor; cbn; intuition discriminate. }
  split; [split; assumption |]. split; [reflexivity |].
  exact (user_actions_keep_list_unique _ _ Ha Hu).
Defined.

(** X8: removals commute and repeat harmlessly: removing [a] then [b]
    leaves the component in the same state as removing [b] then [a], and
    removing [a] a second time changes nothing more. *)
Theorem removals_commute (c : Component) (a b : string) :
  fst (run c [DeleteClick a; DeleteClick b]) = fst (run c [DeleteClick b; DeleteClick a])
  /\ fst (run c [DeleteClick a; DeleteClick a]) = fst (step c (DeleteClick a)).
Proof.
  rewrite !run_two. cbn [fst]. rewrite !step_DeleteClick_fst.
  cbn [props state scopeValue scopes errorMessage].
  split.
  - destruct (string_dec a ""), (string_dec b ""); try reflexivity.
    now rewrite withoutValue_comm.
  - destruct (string_dec a ""); [reflexivity |].
    now rewrite withoutValue_idempotent.
Qed.

(** X9: a token with the empty value cannot be removed by the user: it
    stays in the list through any sequence of input changes, key presses,
    blurs, adds and removals, although the render output gives it a delete
    icon whenever the default scope is not empty; a click on that icon
    changes nothing. *)
Theorem empty_token_stays (c : Component) (actions : list Action) :
  userActions actions -> In (buildScope "") (scopes (state c)) ->
  In (buildScope "") (scopes (state (fst (run c actions))))
  /\ step c (DeleteClick "") = (c, [])
  /\ (defaultValue (props c) <> "" -> offersDelete (render (props c) (state c)) "").
Proof.
  intros Ha Hin. split; [| split].
  - revert c Ha Hin. apply (run_user_preserves (fun l => In (buildScope "") l)).
    intros c0 a Hr H0.
    destruct (step_user_scopes c0 a Hr) as [-> | [(x & Nx & ->) | (s & Ns & ->)]].
    + exact H0.
    + rewrite addOutput_eq. right. apply appendFresh_In. split; [exact H0 |].
      cbn. intros [E | []]. now apply Nx.
    + apply withoutValue_In. split; [exact H0 |]. cbn. congruence.
  - apply step_DeleteClick_empty.
  - intros Nd. apply (render_offers_others (props c) (state c) (buildScope "") Hin).
    cbn. congruence.
Qed.

Lemma empty_token_stays_witness :
  (userActions [DeleteClick ""; InputChange "email"; AddClick; DeleteClick "openid"]
   /\ In (buildScope "") (scopes (state (fst (mount (openidProps (Some "openid  profile")))))))
  /\ scopes (state (fst (run (fst (mount (openidProps (Some "openid  profile"))))
       [DeleteClick ""; InputChange "email"; AddClick; DeleteClick "openid"]))) =
     map buildScope ["email"; ""; "profile"]
  /\ In (buildScope "")
       (scopes (state (fst (run (fst (mount (openidProps (Some "openid  profile"))))
          [DeleteClick ""; InputChange "email"; AddClick; DeleteClick "openid"])))).
Proof.
  assert (Ha : userActions
            [DeleteClick ""; InputChange "email"; AddClick; DeleteClick "openid"])
    by (repeat constructor).
  assert (Hin : In (buildScope "")
            (scopes (state (fst (mount (openidProps (Some "openid  profile")))))))
    by (right; left; reflexivity).
  split; [split; assumption |]. split; [reflexivity |].
  exact (proj1 (empty_token_stays _ _ Ha Hin)).
Defined.

(** X10: a removal whose non-empty target is not in the list leaves the
    whole component as it was, yet still calls [onChange] once, with the
    unchanged serialization. *)
Theorem absent_removal_still_notifies (c : Component) (s : string) :
  s <> "" -> ~ In s (map value (scopes (state c))) ->
  step c (DeleteClick s) = (c, [onChange (buildScopesString (scopes (state c)))]).
Proof.
  intros N Ha. rewrite (step_DeleteClick_nonempty c s N).
  rewrite (withoutValue_absent _ _ Ha). now rewrite state_eta, component_eta.
Qed.

Lemma absent_removal_still_notifies_witness :
  ("email" <> ""
   /\ ~ In "email" (map value (scopes (state (withState (openidProps None) "pro"
                                                        ["openid"; "profile"])))))
  /\ step (withState (openidProps None) "pro" ["openid"; "profile"]) (DeleteClick "email") =
     (withState (openidProps None) "pro" ["openid"; "profile"],
      [onChange "openid profile"]).
Proof.
  assert (N : "email" <> "") by discriminate.
  assert (Ha : ~ In "email" (map value (scopes (state (withState (openidProps None) "pro"
                                                        ["openid"; "profile"]))))).
  { cbn. intuition discriminate. }
  split; [split; assumption |].
  exact (absent_removal_still_notifies _ _ N Ha).
Defined.

(** ** When the round trip holds *)

Section RoundTripFacts.

Lemma countSpaces_app (a b : string) :
  countSpaces (a ++ b) = countSpaces a + countSpaces b.
Proof.
  induction a as [| ch r IH]; [reflexivity |].
  cbn [String.append countSpaces]. rewrite IH. lia.
Qed.

Lemma countSpaces_join (x : string) (l : list string) :
  countSpaces (JS.join " " (x :: l)) =
  List.length l + list_sum (map countSpaces (x :: l)).
Proof.
  revert x.
  induction l as [| y r IH]; intros x.
  - cbn. lia.
  - rewrite join_cons_cons, !countSpaces_app, IH. cbn. lia.
Qed.

Lemma spaceFree_values (ts : list ScopeInterface) :
  Forall spaceFree (map value ts) <-> Forall (fun t => spaceFree (value t)) ts.
Proof. apply Forall_map. Qed.

End RoundTripFacts.

(** X11: for a non-empty list, parsing the serialization gives the list
    back exactly when no token holds a space; in general the parse has one
    token more for every space inside a token. *)
Theorem round_trip_iff_space_free (ts : list ScopeInterface) :
  ts <> [] ->
  let parsed := map buildScope (JS.split SCOPE_SEPARATOR (buildScopesString ts)) in
  (parsed = ts <-> Forall (fun t => spaceFree (value t)) ts)
  /\ List.length parsed =
     List.length ts + list_sum (map (fun t => countSpaces (value t)) ts).
Proof.
  intros Hne parsed. split.
  - split.
    + intros E. rewrite <- E. unfold parsed. apply Forall_map. cbn [buildScope value].
      apply split_space_pieces.
    + intros H. now apply parse_serialized.
  - unfold parsed. rewrite length_map. unfold SCOPE_SEPARATOR.
    rewrite split_space_length. unfold buildScopesString, SCOPE_SEPARATOR.
    destruct ts as [| t r]; [congruence |].
    cbn [map]. rewrite countSpaces_join. cbn [List.length map buildScopeString].
    rewrite length_map, map_map. unfold buildScopeString. cbn [list_sum map]. lia.
Qed.

Lemma round_trip_iff_space_free_witness :
  map buildScope ["read write"; "openid"] <> []
  /\ map buildScope (JS.split SCOPE_SEPARATOR
                       (buildScopesString (map buildScope ["read write"; "openid"]))) =
     map buildScope ["read"; "write"; "openid"]
  /\ List.length (map buildScope (JS.split SCOPE_SEPARATOR
                       (buildScopesString (map buildScope ["read write"; "openid"])))) =
     2 + 1.
Proof.
  assert (Hne : map buildScope ["read write"; "openid"] <> []) by discriminate.
  split; [exact Hne |]. split; [reflexivity |].
  exact (proj2 (round_trip_iff_space_free _ Hne)).
Defined.

(** ** The labels *)

Section LabelFacts.

Lemma mapIndexed_texts (d : string) (l : list ScopeInterface) (index : nat) :
  map label_text (mapIndexed (renderLabel d) index l) = map value l.
Proof.
  revert index.
  induction l as [| t r IH]; intros index; [reflexivity |].
  cbn [mapIndexed map]. now rewrite renderLabel_text, IH.
Qed.

Lemma mapIndexed_keys (d : string) (l : list ScopeInterface) (index : nat) :
  map label_key (mapIndexed (renderLabel d) index l) = seq index (List.length l).
Proof.
  revert index.
  induction l as [| t r IH]; intros index; [reflexivity |].
  cbn [mapIndexed map List.length seq]. rewrite IH. f_equal.
  unfold renderLabel. now destruct (String.eqb (value t) d).
Qed.

Lemma withoutValue_values_filter (s : string) (l : list ScopeInterface) :
  map value (withoutValue s l) =
  filter (fun v => negb (String.eqb v s)) (map value l).
Proof.
  induction l as [| t r IH]; [reflexivity |].
  cbn [withoutValue map filter].
  destruct (string_dec (value t) s) as [E | N].
  - rewrite E, String.eqb_refl. exact IH.
  - apply String.eqb_neq in N. rewrite N. cbn [negb map]. now rewrite IH.
Qed.

Lemma withoutValue_shorter (s : string) (l : list ScopeInterface) :
  In s (map value l) -> List.length (withoutValue s l) < List.length l.
Proof.
  assert (Le : forall r, List.length (withoutValue s r) <= List.length r).
  { induction r as [| u r IH]; [constructor |].
    cbn [withoutValue]. destruct (string_dec (value u) s); cbn [List.length]; lia. }
  induction l as [| t r IH]; cbn [map In withoutValue List.length]; [tauto |].
  intros H. destruct (string_dec (value t) s) as [E | N].
  - specialize (Le r). lia.
  - cbn [List.length]. destruct H as [H | H]; [contradiction |].
    specialize (IH H). lia.
Qed.

Lemma offersDelete_inv (p : ScopesPropsInterface) (st : State) (s : string) :
  offersDelete (render p st) s ->
  In s (map value (scopes st)) /\ s <> defaultValue p.
Proof.
  intros (lbl & Hin & Hdel). cbn [render view_labels] in Hin.
  apply mapIndexed_In in Hin as (t & k & Ht & ->).
  rewrite renderLabel_delete in Hdel.
  destruct (String.eqb_spec (value t) (defaultValue p)) as [E | N]; [discriminate |].
  injection Hdel as <-. split; [now apply in_map | exact N].
Qed.

End LabelFacts.

(** X12: the render output shows every token of the list exactly once, in
    list order: the label texts are the token values, the keys count up from
    0, and a label carries a delete icon, wired to its own text, exactly when
    its text differs from the default scope. *)
Theorem labels_mirror_the_list (p : ScopesPropsInterface) (st : State) :
  map label_text (view_labels (render p st)) = map value (scopes st)
  /\ map label_key (view_labels (render p st)) = seq 0 (List.length (scopes st))
  /\ (forall lbl, In lbl (view_labels (render p st)) ->
        label_delete lbl =
        if String.eqb (label_text lbl) (defaultValue p) then None
        else Some (label_text lbl)).
Proof.
  cbn [render view_labels]. split; [apply mapIndexed_texts | split].
  - apply mapIndexed_keys.
  - intros lbl Hin. apply mapIndexed_In in Hin as (t & k & _ & ->).
    now rewrite renderLabel_delete, renderLabel_text.
Qed.

(** X13: a click on a delete icon that the render output offers, for a
    non-empty value [s], takes every label with the text [s] away and leaves
    the other labels in their order; at least one label goes, and the default
    scope's label is never among them. *)
Theorem offered_delete_removes_its_labels (c : Component) (s : string) :
  offersDelete (render (props c) (state c)) s -> s <> "" ->
  let before := view_labels (render (props c) (state c)) in
  let c' := fst (step c (DeleteClick s)) in
  let after := view_labels (render (props c') (state c')) in
  map label_text after = filter (fun v => negb (String.eqb v s)) (map label_text before)
  /\ List.length after < List.length before
  /\ s <> defaultValue (props c).
Proof.
  intros Ho N before c' after.
  apply offersDelete_inv in Ho as [Hin Hd].
  assert (Hl : forall q st, List.length (view_labels (render q st)) = List.length (scopes st)).
  { intros q st. rewrite <- (length_map label_text).
    cbn [render view_labels]. now rewrite mapIndexed_texts, length_map. }
  subst before after c'. rewrite (step_DeleteClick_nonempty c s N). cbn [fst props state].
  split; [| split; [| exact Hd]].
  - cbn [render view_labels scopes]. rewrite !mapIndexed_texts.
    apply withoutValue_values_filter.
  - rewrite !Hl. cbn [scopes]. now apply withoutValue_shorter.
Qed.

Lemma offered_delete_removes_its_labels_witness :
  (offersDelete (render (openidProps None)
                        (state (withState (openidProps None) ""
                                          ["openid"; "email"; "profile"]))) "email"
   /\ "email" <> "")
  /\ map label_text
       (view_labels (render (openidProps None)
          (state (fst (step (withState (openidProps None) ""
                                       ["openid"; "email"; "profile"])
                            (DeleteClick "email")))))) = ["openid"; "profile"].
Proof.
  assert (Ho : offersDelete (render (openidProps None)
                        (state (withState (openidProps None) ""
                                          ["openid"; "email"; "profile"]))) "email").
  { exists {| label_key := 1; label_text := "email"; label_delete := Some "email" |}.
    split; [right; left; reflexivity | reflexivity]. }
  assert (N : "email" <> "") by discriminate.
  split; [split; assumption |].
  exact (proj1 (offered_delete_removes_its_labels
                  (withState (openidProps None) "" ["openid"; "email"; "profile"])
                  "email" Ho N)).
Defined.

(** ** What the parent can do through the value prop *)

Section ValueFacts.

Lemma valueEffect_cases (v : option string) :
  valueEffect v = []
  \/ exists s, v = Some s /\ s <> "" /\
       valueEffect v = [setScopes (map buildScope (JS.split SCOPE_SEPARATOR s))].
Proof.
  destruct (isEmpty v) eqn:E; [left; now apply valueEffect_empty | right].
  destruct v as [s |]; [| discriminate E].
  assert (N : s <> "") by (intros ->; discriminate E).
  exists s. split; [reflexivity | split; [exact N | now apply valueEffect_nonempty]].
Qed.

Lemma parsed_not_nil (s : string) : map buildScope (JS.split SCOPE_SEPARATOR s) <> [].
Proof.
  pose proof (split_space_not_nil s) as H. unfold SCOPE_SEPARATOR.
  destruct (JS.split " " s); [congruence | discriminate].
Qed.

End ValueFacts.

(** X14: the parent cannot empty the list through the value prop: a
    re-render never turns a non-empty list into the empty one, and a freshly
    mounted component holds the empty list exactly when its value prop is
    empty or undefined. *)
Theorem value_prop_never_empties_list (c : Component) (p : ScopesPropsInterface) :
  scopes (state c) <> [] ->
  scopes (state (fst (step c (Rerender p)))) <> []
  /\ (scopes (state (fst (mount p))) = [] <-> isEmpty (prop_value p) = true).
Proof.
  intros Hne. split.
  - rewrite step_state. cbn [setterCalls].
    destruct (option_string_eqb _ _); [exact Hne |].
    destruct (valueEffect_cases (prop_value p)) as [-> | (s & _ & _ & ->)];
      [exact Hne | apply parsed_not_nil].
  - rewrite mount_state.
    destruct (isEmpty (prop_value p)) eqn:I.
    + rewrite (valueEffect_empty _ I). split; reflexivity.
    + destruct (valueEffect_cases (prop_value p)) as [E | (s & _ & _ & E)].
      * unfold valueEffect in E. rewrite I in E.
        destruct (prop_value p); [discriminate E | discriminate I].
      * rewrite E. cbn. split; [| discriminate].
        intros H. now apply parsed_not_nil in H.
Qed.

Lemma value_prop_never_empties_list_witness :
  scopes (state (withState (openidProps (Some "openid")) "" ["openid"])) <> []
  /\ scopes (state (fst (step (withState (openidProps (Some "openid")) "" ["openid"])
                              (Rerender (openidProps (Some " ")))))) =
     map buildScope [""; ""]
  /\ scopes (state (fst (step (withState (openidProps (Some "openid")) "" ["openid"])
                              (Rerender (openidProps (Some " ")))))) <> [].
Proof.
  assert (Hne : scopes (state (withState (openidProps (Some "openid")) "" ["openid"])) <> [])
    by discriminate.
  split; [exact Hne |]. split; [reflexivity |].
  exact (proj1 (value_prop_never_empties_list _ (openidProps (Some " ")) Hne)).
Defined.

(** X15: local edits survive a re-render that brings the same value: after
    any actions of the user, a re-render whose value prop equals the one the
    component already has changes only the props; the state stays, so the list
    is not parsed again, and nothing is called. *)
Theorem same_value_does_not_resync
  (c : Component) (actions : list Action) (p' : ScopesPropsInterface) :
  userActions actions -> prop_value p' = prop_value (props c) ->
  step (fst (run c actions)) (Rerender p') =
  ({| props := p'; state := state (fst (run c actions)) |}, []).
Proof.
  intros Ha Hv. cbn [step setterCalls].
  rewrite (run_user_props actions c Ha), <- Hv.
  assert (E : option_string_eqb (prop_value p') (prop_value p') = true)
    by now apply option_string_eqb_spec.
  rewrite E. reflexivity.
Qed.

Lemma same_value_does_not_resync_witness :
  (userActions [InputChange "email"; AddClick]
   /\ prop_value (openidProps (Some "openid profile")) =
      prop_value (props (fst (mount (openidProps (Some "openid profile"))))))
  /\ run (fst (mount (openidProps (Some "openid profile"))))
         [InputChange "email"; AddClick; Rerender (openidProps (Some "openid profile"))] =
     (withState (openidProps (Some "openid profile")) "" ["email"; "openid"; "profile"],
      [onChange "email openid profile"])
  /\ step (fst (run (fst (mount (openidProps (Some "openid profile"))))
                    [InputChange "email"; AddClick]))
          (Rerender (openidProps (Some "openid profile"))) =
     ({| props := openidProps (Some "openid profile");
         state := state (fst (run (fst (mount (openidProps (Some "openid profile"))))
                                  [InputChange "email"; AddClick])) |}, []).
Proof.
  assert (Ha : userActions [InputChange "email"; AddClick]) by (repeat constructor).
  split; [split; [exact Ha | reflexivity] |]. split; [reflexivity |].
  exact (same_value_does_not_resync (fst (mount (openidProps (Some "openid profile"))))
           _ (openidProps (Some "openid profile")) Ha eq_refl).
Defined.
